(** * Trakt2EmbySync: the matching and reconciliation core of
    [sync_Trakt_to_emby.py], embedded as Rocq functions.

    Conventions of the embedding.
    - A Python [str] is a [string]; the text functions work on its list of
      characters.  The character classes [\s], [\w], [\d] and [str.lower]
      are those of Python on 7-bit ASCII text ([ascii_text]); what is stated
      of a text function for all titles is stated for the titles of that
      range.
    - An Emby id is a string.  Where the code converts an external id of
      the Trakt JSON with [str] before it uses it ([process_item]) or only
      compares ids of one dictionary with one another (the registries), the
      id is carried as its decimal text.  Where it compares the raw value
      with a text of Emby ([search_movie_in_emby], [search_tv_show_in_emby],
      and [recheck_missing_item] that calls them) the value is an
      [id_value], a text, a number or [null], and only a text is equal to a
      text.  A year is a [Z]; an absent or [null] field is [None].
    - Python truthiness is written out: an empty string, [0], [None] and an
      empty list or dictionary are false.
    - The module globals ([_emby_id_mapping], [_missing_items],
      [_ignored_items], [_library_cache]) are the fields of a [world] that
      every operation takes and returns.  The Emby server and the wall clock
      are oracles ([env]); every HTTP request is logged in the world, and so
      is the number of readings of the clock.
    - One call is modelled at a time: the thread pool of
      [sync_trakt_list_to_emby] is outside the model.
    - [print]/[log_*] output, [time.sleep] and the JSON files written by the
      [save_*] functions are not part of the state. *)

From Stdlib Require Import ZArith QArith Lia Ascii String List Bool DecimalString.
From stdpp Require Import gmap strings list.

(** ** Text: character classes, [re.sub] patterns, [str.split] *)

Module Text.

Definition in_range (lo hi : nat) (c : ascii) : bool :=
  Nat.leb lo (nat_of_ascii c) && Nat.leb (nat_of_ascii c) hi.

(** [str.isspace] / [\s]: TAB..CR, FS..US and the space. *)
Definition is_space (c : ascii) : bool := in_range 9 13 c || in_range 28 32 c.

(** [\d] *)
Definition is_digit (c : ascii) : bool := in_range 48 57 c.

(** [\w] *)
Definition is_word (c : ascii) : bool :=
  is_digit c || in_range 65 90 c || in_range 97 122 c || Ascii.eqb c "_".

Definition lower_char (c : ascii) : ascii :=
  if in_range 65 90 c then ascii_of_nat (nat_of_ascii c + 32) else c.

(** [s.lower()] *)
Definition lower (s : list ascii) : list ascii := map lower_char s.

Fixpoint drop_while (p : ascii -> bool) (s : list ascii) : list ascii :=
  match s with
  | c :: s' => if p c then drop_while p s' else s
  | [] => []
  end.

Fixpoint take_while (p : ascii -> bool) (s : list ascii) : list ascii :=
  match s with
  | c :: s' => if p c then c :: take_while p s' else []
  | [] => []
  end.

(** [s.strip()] *)
Definition strip (s : list ascii) : list ascii :=
  rev (drop_while is_space (rev (drop_while is_space s))).

(** [s.startswith(p)], with the rest of [s] after the prefix. *)
Fixpoint strip_prefix (p s : list ascii) : option (list ascii) :=
  match p, s with
  | [], _ => Some s
  | a :: p', b :: s' => if Ascii.eqb a b then strip_prefix p' s' else None
  | _ :: _, [] => None
  end.

Definition startswith (p s : list ascii) : bool :=
  match strip_prefix p s with Some _ => true | None => false end.

(** [p in s] *)
Fixpoint contains (p s : list ascii) : bool :=
  startswith p s ||
  match s with
  | _ :: s' => contains p s'
  | [] => false
  end.

(** A match of [\s*\(\d{4}\)\s*] at the start of [s]: the number of
    characters it takes.  [\s*] is greedy and a "(" is no space, so giving
    characters back never helps. *)
Definition match_year (s : list ascii) : option nat :=
  let ws1 := take_while is_space s in
  match drop_while is_space s with
  | o :: d1 :: d2 :: d3 :: d4 :: c :: r =>
      if Ascii.eqb o "(" && is_digit d1 && is_digit d2 && is_digit d3
         && is_digit d4 && Ascii.eqb c ")"
      then Some (length ws1 + 6 + length (take_while is_space r))
      else None
  | _ => None
  end.

(** [re.sub(r'\s*\(\d{4}\)\s*', '', s)]: scanning from the left, a match is
    dropped and the scan goes on behind it; [skip] counts the characters of
    the current match still to drop. *)
Fixpoint sub_year_go (skip : nat) (s : list ascii) : list ascii :=
  match s with
  | [] => []
  | c :: s' =>
      match skip with
      | S k => sub_year_go k s'
      | O =>
          match match_year s with
          | Some n => sub_year_go (Nat.pred n) s'
          | None => c :: sub_year_go 0 s'
          end
      end
  end.

Definition sub_year (s : list ascii) : list ascii := sub_year_go 0 s.

(** [re.sub(r'[^\w\s]', '', s)] *)
Definition sub_punct (s : list ascii) : list ascii :=
  List.filter (fun c => is_word c || is_space c) s.

(** A match of [^p\s+] at the start of [s]: what is left behind it. *)
Definition strip_prefix_ws (p s : list ascii) : option (list ascii) :=
  match strip_prefix p s with
  | Some (c :: r) => if is_space c then Some (drop_while is_space r) else None
  | _ => None
  end.

Definition chars (s : string) : list ascii := list_ascii_of_string s.

(** [re.sub(r'^(the|a|an)\s+', '', s)]: the alternatives in their order. *)
Definition sub_article (s : list ascii) : list ascii :=
  match strip_prefix_ws (chars "the") s with
  | Some r => r
  | None =>
      match strip_prefix_ws (chars "a") s with
      | Some r => r
      | None =>
          match strip_prefix_ws (chars "an") s with
          | Some r => r
          | None => s
          end
      end
  end.

(** [re.sub(r'^marvel\'?s\s+', '', s)]: the optional quote is tried first. *)
Definition sub_marvel (s : list ascii) : list ascii :=
  match strip_prefix_ws (chars "marvel's") s with
  | Some r => r
  | None =>
      match strip_prefix_ws (chars "marvels") s with
      | Some r => r
      | None => s
      end
  end.

(** [s.split()]: the maximal runs of non-space characters; [cur] is the run
    being read, last character first. *)
Fixpoint split_go (cur : list ascii) (s : list ascii) : list (list ascii) :=
  match s with
  | [] => match cur with [] => [] | _ => [rev cur] end
  | c :: s' =>
      if is_space c
      then match cur with [] => split_go [] s' | _ => rev cur :: split_go [] s' end
      else split_go (c :: cur) s'
  end.

Definition split (s : list ascii) : list (list ascii) := split_go [] s.

(** [' '.join(ws)] *)
Fixpoint join (ws : list (list ascii)) : list ascii :=
  match ws with
  | [] => []
  | [w] => w
  | w :: ws' => w ++ " "%char :: join ws'
  end.

Definition normalize_chars (t : list ascii) : list ascii :=
  let t := lower t in
  let t := sub_year t in
  let t := sub_punct t in
  let t := sub_article t in
  let t := sub_marvel t in
  join (split t).

(** What every character of a normalized title satisfies: it is a word
    character or a space, and lowering leaves it as it is. *)
Definition clean (c : ascii) : bool :=
  (is_word c || is_space c) && Ascii.eqb (lower_char c) c.

(** A word as [split] returns it: not empty, without a space. *)
Definition word (P : ascii -> Prop) (w : list ascii) : Prop :=
  w <> [] /\ Forall (fun c => P c /\ is_space c = false) w.

End Text.

(** [normalize_title(title)], for a title of 7-bit ASCII characters. *)
Definition normalize_title (title : string) : string :=
  string_of_list_ascii (Text.normalize_chars (Text.chars title)).



(** ** Python values *)

(** [s] is true, for a string. *)
Definition truthy (s : string) : bool := negb (String.eqb s "").

Definition on_chars (f : list ascii -> list ascii) (s : string) : string :=
  string_of_list_ascii (f (Text.chars s)).

Definition str_strip : string -> string := on_chars Text.strip.
Definition str_lower : string -> string := on_chars Text.lower.
Definition str_startswith (p s : string) : bool :=
  Text.startswith (Text.chars p) (Text.chars s).
Definition str_contains (p s : string) : bool :=
  Text.contains (Text.chars p) (Text.chars s).

(** [str(n)] for an integer. *)
Definition str_of_Z (n : Z) : string := DecimalString.NilZero.string_of_int (Z.to_int n).

(** [str(x)] for an optional string ([None] prints as its name). *)
Definition str_of_opt (x : option string) : string := default "None" x.

(** [d.get(k)] is true. *)
Definition has (d : gmap string string) (k : string) : bool :=
  match d !! k with Some v => truthy v | None => false end.

(** [d.get(k, '')] *)
Definition get (d : gmap string string) (k : string) : string := default "" (d !! k).

(** A value of a dictionary of ids as the JSON has it: a text, a number or
    [null]. *)
Inductive id_value :=
| IdText (s : string)
| IdNumber (n : Z)
| IdNull.

#[global] Instance id_value_eq_dec : EqDecision id_value.
Proof. solve_decision. Defined.

(** [v] is true. *)
Definition truthy_value (v : id_value) : bool :=
  match v with IdText s => truthy s | IdNumber n => negb (Z.eqb n 0) | IdNull => false end.

(** [str(v)], which is also what an f-string makes of [v]. *)
Definition str_of_value (v : id_value) : string :=
  match v with IdText s => s | IdNumber n => str_of_Z n | IdNull => "None" end.

(** [s == v] for a text [s]: a text is equal to no number and not to
    [None]. *)
Definition str_eq_value (s : string) (v : id_value) : bool :=
  match v with IdText t => String.eqb s t | IdNumber _ | IdNull => false end.

(** [d.get(k)] is true. *)
Definition has_value (d : gmap string id_value) (k : string) : bool :=
  match d !! k with Some v => truthy_value v | None => false end.

(** [d[k]] *)
Definition get_value (d : gmap string id_value) (k : string) : id_value :=
  default (IdText "") (d !! k).

(** [x] is true, for an optional number (a year). *)
Definition truthy_year (y : option Z) : bool :=
  match y with Some n => negb (Z.eqb n 0) | None => false end.

(** ** Data *)

(** An item of the Emby library, as [/Items] returns it. *)
Record emby_item := {
  Id : string;
  Name : string;
  ProductionYear : option Z;
  ProviderIds : gmap string string;
  Path : string
}.

(** An entry of [_emby_id_mapping]. *)
Record mapping := {
  emby_id : string;
  m_type : string;
  m_title : string;
  last_updated : string
}.

(** An element of a record's ['collections']. *)
Record collection_ref := {
  name : string;
  c_library_id : option string
}.

(** An element of [_missing_items] and of [_ignored_items].  A field that is
    an [option] may be absent from the dictionary; ['collection_name'] and
    ['library_id'] are the keys of the old format, ['trakt_ids'] is the key
    [recheck_missing_item] reads and hands to the search functions as it
    is. *)
Record missing_item := {
  title : option string;
  year : option Z;
  ids : gmap string string;
  item_type : string;
  reason : string;
  last_checked : string;
  collections : option (list collection_ref);
  collection_name : option string;
  library_id : option string;
  trakt_ids : gmap string id_value;
  ignored_on : option string
}.

(** The ['movie'] or ['show'] object of a Trakt list item; external ids are
    strings, a numeric id being its decimal text. *)
Record trakt_media := {
  t_title : option string;
  t_year : option Z;
  t_ids : gmap string string
}.

Definition no_media : trakt_media :=
  {| t_title := None; t_year := None; t_ids := ∅ |}.

(** An item of a Trakt list. *)
Record trakt_item := {
  type : string;
  movie : option trakt_media;
  show : option trakt_media
}.

(** What [process_item] returns on a match. *)
Record matched := {
  r_id : string;
  r_type : string
}.

(** ** The Emby server and the clock *)

Inductive request :=
| GetLibraryItems (item_type library_id : string)
| GetItem (id : string)
| GetBoxSets
| PostCollectionItems (collection_id movie_id : string)
| PostCollections (name : string) (movie_ids : list string)
| PostItemCollection (first_movie_id name : string).

(** The outcome of a request: an exception of [requests], or a response with
    its status code, the ['Items'] of its body and the ['Id'] of its body. *)
Inductive response :=
| Raised (message : string)
| Response (status_code : Z) (Items : list emby_item) (json_id : option string).

Record env := {
  EMBY_MOVIES_LIBRARY_ID : string;
  EMBY_TV_LIBRARY_ID : string;
  (** the server's answer to a request, given the requests it served before *)
  emby : list request -> request -> response;
  (** [datetime.now().isoformat()] at the n-th reading of the clock *)
  clock : nat -> string
}.

Record world := {
  _emby_id_mapping : gmap string mapping;
  _missing_items : list missing_item;
  _ignored_items : list missing_item;
  _library_cache : gmap string (list emby_item);
  http_log : list request;
  ticks : nat
}.

Definition set_mapping (f : gmap string mapping -> gmap string mapping) (w : world) : world :=
  {| _emby_id_mapping := f (_emby_id_mapping w); _missing_items := _missing_items w;
     _ignored_items := _ignored_items w; _library_cache := _library_cache w;
     http_log := http_log w; ticks := ticks w |}.

Definition set_missing (f : list missing_item -> list missing_item) (w : world) : world :=
  {| _emby_id_mapping := _emby_id_mapping w; _missing_items := f (_missing_items w);
     _ignored_items := _ignored_items w; _library_cache := _library_cache w;
     http_log := http_log w; ticks := ticks w |}.

Definition set_ignored (f : list missing_item -> list missing_item) (w : world) : world :=
  {| _emby_id_mapping := _emby_id_mapping w; _missing_items := _missing_items w;
     _ignored_items := f (_ignored_items w); _library_cache := _library_cache w;
     http_log := http_log w; ticks := ticks w |}.

Definition set_cache (f : gmap string (list emby_item) -> gmap string (list emby_item))
    (w : world) : world :=
  {| _emby_id_mapping := _emby_id_mapping w; _missing_items := _missing_items w;
     _ignored_items := _ignored_items w; _library_cache := f (_library_cache w);
     http_log := http_log w; ticks := ticks w |}.

(** ** The state monad of the module globals *)

Definition M (A : Type) : Type := world -> A * world.

Definition ret {A} (a : A) : M A := fun w => (a, w).
Definition bind {A B} (m : M A) (f : A -> M B) : M B :=
  fun w => let '(a, w') := m w in f a w'.

Declare Scope M_scope.
Delimit Scope M_scope with M.
Bind Scope M_scope with M.
Notation "x ← y ; z" := (bind y (fun x => z))
  (at level 20, y at level 100, z at level 200, only parsing) : M_scope.
Notation "' x ← y ; z" := (bind y (fun x => z))
  (at level 20, x pattern, y at level 100, z at level 200, only parsing) : M_scope.
Notation "x ;; z" := (bind x (fun _ => z))
  (at level 100, z at level 200, only parsing, right associativity) : M_scope.
Open Scope M_scope.

Definition gets {A} (f : world -> A) : M A := fun w => (f w, w).
Definition modify (f : world -> world) : M unit := fun w => (tt, f w).

(** [x] is true, for a string that may be [None]. *)
Definition truthy_opt (x : option string) : bool :=
  match x with Some s => truthy s | None => false end.

(** [status_code in (200, 201, 204)] *)
Definition is_success (code : Z) : bool :=
  Z.eqb code 200 || Z.eqb code 201 || Z.eqb code 204.

Section Engine.

Context (E : env).

(** A request to the Emby server: the answer is the server's, the request is
    logged. *)
Definition http (r : request) : M response :=
  fun w => (emby E (http_log w) r,
            {| _emby_id_mapping := _emby_id_mapping w; _missing_items := _missing_items w;
               _ignored_items := _ignored_items w; _library_cache := _library_cache w;
               http_log := http_log w ++ [r]; ticks := ticks w |}).

(** [datetime.now().isoformat()] *)
Definition now : M string :=
  fun w => (clock E (ticks w),
            {| _emby_id_mapping := _emby_id_mapping w; _missing_items := _missing_items w;
               _ignored_items := _ignored_items w; _library_cache := _library_cache w;
               http_log := http_log w; ticks := S (ticks w) |}).

(** *** The mapping store *)

Definition mapping_key (item_type trakt_id : string) : string :=
  item_type +:+ "_" +:+ trakt_id.

Definition add_emby_id_mapping (trakt_id emby_id item_type title : string) : M bool :=
  t ← now;
  modify (set_mapping (insert (mapping_key item_type trakt_id)
            {| emby_id := emby_id; m_type := item_type; m_title := title;
               last_updated := t |}));;
  ret true.

Definition get_emby_id_from_mapping (item_type trakt_id : string) : M (option string) :=
  gets (fun w => emby_id <$> (_emby_id_mapping w !! mapping_key item_type trakt_id)).

(** [if trakt_id: add_emby_id_mapping(trakt_id, emby_id, item_type, title)] *)
Definition store_match (trakt_id : option string) (emby_id item_type title : string) : M unit :=
  if truthy_opt trakt_id
  then add_emby_id_mapping (default "" trakt_id) emby_id item_type title;; ret tt
  else ret tt.

(** *** The library index *)

Definition get_emby_library_items (item_type : string) (library_id : option string)
    (force_refresh : bool) : M (list emby_item) :=
  let cache_key := item_type +:+ "_" +:+ str_of_opt library_id in
  cached ← gets (fun w => _library_cache w !! cache_key);
  match (if force_refresh then None else cached) with
  | Some items => ret items
  | None =>
      let library_id :=
        if truthy_opt library_id then default "" library_id
        else if String.eqb item_type "Movie" then EMBY_MOVIES_LIBRARY_ID E
        else if String.eqb item_type "Series" then EMBY_TV_LIBRARY_ID E
        else "" in
      if negb (truthy library_id) then ret []
      else
        response ← http (GetLibraryItems item_type library_id);
        match response with
        | Response code items _ =>
            if Z.eqb code 200
            then modify (set_cache (insert cache_key items));; ret items
            else ret []
        | Raised _ => ret []
        end
  end.

(** *** Collections on the server *)

Definition find_collection_by_name (collection_name : string) : M (option string) :=
  search_response ← http GetBoxSets;
  match search_response with
  | Response code items _ =>
      if Z.eqb code 200
      then ret (Id <$> List.find
                   (fun item => String.eqb (str_lower (Name item)) (str_lower collection_name))
                   items)
      else ret None
  | Raised _ => ret None
  end.

Definition add_movie_to_emby_collection (movie_id collection_id : string) : M bool :=
  response ← http (PostCollectionItems collection_id movie_id);
  match response with
  | Raised _ => ret false
  | Response code _ _ =>
      if is_success code then ret true
      else
        get_response ← http (GetItem movie_id);
        match get_response with
        | Raised _ => ret false
        | Response code _ _ =>
            if Z.eqb code 200
            then
              post_response ← http (PostCollectionItems collection_id movie_id);
              match post_response with
              | Raised _ => ret false
              | Response code _ _ => ret (is_success code)
              end
            else ret false
        end
  end.

Definition create_collection_legacy_format (collection_name : string)
    (movie_ids : list string) : M (option string) :=
  match movie_ids with
  | [] => ret None
  | _ =>
      response ← http (PostCollections collection_name movie_ids);
      match response with
      | Raised _ => ret None
      | Response code _ json_id =>
          if is_success code
          then
            if truthy_opt json_id then ret json_id
            else
              collection_id ← find_collection_by_name collection_name;
              if truthy_opt collection_id then ret collection_id else ret None
          else ret None
      end
  end.

(** [for movie_id in movie_ids[1:]: if add_movie_to_emby_collection(...): success_count += 1] *)
Fixpoint add_rest (collection_id : string) (movie_ids : list string) (success_count : nat)
    : M nat :=
  match movie_ids with
  | [] => ret success_count
  | movie_id :: rest =>
      ok ← add_movie_to_emby_collection movie_id collection_id;
      add_rest collection_id rest (if ok then S success_count else success_count)
  end.

Definition create_emby_collection_with_movies (collection_name : string)
    (movie_ids : list string) : M (option string) :=
  match movie_ids with
  | [] => ret None
  | first_movie_id :: others =>
      existing_id ← find_collection_by_name collection_name;
      if truthy_opt existing_id then ret existing_id
      else
        collection_id ← create_collection_legacy_format collection_name movie_ids;
        if truthy_opt collection_id then ret collection_id
        else
          create_response ← http (PostItemCollection first_movie_id collection_name);
          match create_response with
          | Raised _ => ret None
          | Response code _ _ =>
              if is_success code
              then
                collection_id ← find_collection_by_name collection_name;
                if truthy_opt collection_id
                then add_rest (default "" collection_id) others 1;; ret collection_id
                else ret None
              else ret None
          end
  end.

End Engine.

(** ** Matching a list entry against library items *)

(** A match of [\[imdbid-(tt\d+)\]] at the start of [s]: its group 1. *)
Definition match_imdb_tag (s : list ascii) : option (list ascii) :=
  match Text.strip_prefix (Text.chars "[imdbid-tt") s with
  | Some r =>
      let ds := Text.take_while Text.is_digit r in
      match ds, Text.drop_while Text.is_digit r with
      | _ :: _, c :: _ =>
          if Ascii.eqb c "]" then Some ("t"%char :: "t"%char :: ds) else None
      | _, _ => None
      end
  | None => None
  end.

(** [re.search]: the leftmost match. *)
Fixpoint search_imdb_tag (s : list ascii) : option (list ascii) :=
  match match_imdb_tag s with
  | Some g => Some g
  | None =>
      match s with
      | _ :: s' => search_imdb_tag s'
      | [] => None
      end
  end.

Definition extract_imdb_from_path (path : string) : option string :=
  if negb (truthy path) || negb (str_contains "[imdbid-" path) then None
  else string_of_list_ascii <$> search_imdb_tag (Text.chars path).

(** [item.get('ProviderIds', {}).get(key, '').strip()] *)
Definition provider_id (key : string) (item : emby_item) : string :=
  str_strip (get (ProviderIds item) key).

(** The test of the provider-id loops, [emby_id and emby_id == wanted]: the
    item's id is there and equal to the entry's value as the dictionary has
    it (no [str] is applied to it). *)
Definition id_hit (key : string) (wanted : id_value) (item : emby_item) : bool :=
  truthy (provider_id key item) && str_eq_value (provider_id key item) wanted.

(** The test made on the item's path. *)
Definition path_hit (imdb_id : id_value) (item : emby_item) : bool :=
  truthy (Path item) &&
  match extract_imdb_from_path (Path item) with
  | Some path_imdb_id => truthy path_imdb_id && str_eq_value path_imdb_id imdb_id
  | None => false
  end.

(** One turn of the IMDB loop: the metadata, then the path. *)
Definition imdb_hit (imdb_id : id_value) (item : emby_item) : bool :=
  id_hit "Imdb" imdb_id item || path_hit imdb_id item.

(** [for item in library_items: if <hit>: ... return emby_id], guarded by
    [if provider_ids.get(key)]. *)
Definition id_step (provider_ids : gmap string id_value) (key : string)
    (hit : id_value -> emby_item -> bool) (library_items : list emby_item)
    : option emby_item :=
  if has_value provider_ids key
  then List.find (hit (get_value provider_ids key)) library_items
  else None.

(** [year and item_year and abs(int(year) - int(item_year)) > 1] *)
Definition year_too_far (year item_year : option Z) : bool :=
  truthy_year year && truthy_year item_year &&
  Z.ltb 1 (Z.abs (default 0%Z year - default 0%Z item_year)).

(** [set(s.split())] *)
Definition word_set (s : string) : gset string :=
  list_to_set (map string_of_list_ascii (Text.split (Text.chars s))).

(** Scores are kept as exact fractions; the word counts of a title are far
    below the size at which a quotient of two counts and the literals [0.6]
    and [0.9] could compare differently as floats. *)
Definition Qlt_bool (a b : Q) : bool := negb (Qle_bool b a).

Definition overlap_score (title_words item_words : gset string) : Q :=
  Z.of_nat (size (title_words ∩ item_words))
  # Pos.of_nat (Nat.max (size title_words) (size item_words)).

(** The loop of the fuzzy fallback, from [best_match], [best_score]; the
    [break] on equal titles ends it. *)
Fixpoint fuzzy_loop (normalized_title : string) (year : option Z)
    (library_items : list emby_item) (best_match : option emby_item) (best_score : Q)
    : option emby_item * Q :=
  match library_items with
  | [] => (best_match, best_score)
  | item :: rest =>
      if year_too_far year (ProductionYear item)
      then fuzzy_loop normalized_title year rest best_match best_score
      else
        let normalized_item_title := normalize_title (Name item) in
        if String.eqb normalized_title normalized_item_title
        then (Some item, 1%Q)
        else
          let '(best_match, best_score) :=
            if (str_contains normalized_title normalized_item_title
                || str_contains normalized_item_title normalized_title)
               && (negb (bool_decide (is_Some best_match)) || Qlt_bool best_score (9 # 10))
            then (Some item, 9 # 10)
            else (best_match, best_score) in
          let title_words := word_set normalized_title in
          let item_words := word_set normalized_item_title in
          let overlap := overlap_score title_words item_words in
          let '(best_match, best_score) :=
            if negb (bool_decide (title_words = ∅)) && negb (bool_decide (item_words = ∅))
               && Qlt_bool (6 # 10) overlap && Qlt_bool best_score overlap
            then (Some item, overlap)
            else (best_match, best_score) in
          fuzzy_loop normalized_title year rest best_match best_score
  end.

(** The fuzzy fallback of [search_movie_in_emby] and [search_tv_show_in_emby]:
    the item it accepts. *)
Definition fuzzy_title_match (title : string) (year : option Z)
    (library_items : list emby_item) : option emby_item :=
  let '(best_match, best_score) :=
    fuzzy_loop (normalize_title title) year library_items None 0%Q in
  match best_match with
  | Some item => if Qle_bool (6 # 10) best_score then Some item else None
  | None => None
  end.

(** The lookup tables of [process_item]; a later item overwrites an earlier
    one under the same key. *)
Record lookups := {
  imdb_lookup : gmap string string;
  tmdb_lookup : gmap string string;
  tvdb_lookup : gmap string string;
  path_imdb_lookup : gmap string string
}.

(** [s[n:]] *)
Definition str_drop (n : nat) : string -> string := on_chars (skipn n).

Definition add_imdb_keys (emby_imdb_id lib_id : string) (d : gmap string string)
    : gmap string string :=
  if truthy emby_imdb_id then
    let d := <[emby_imdb_id := lib_id]> d in
    if negb (str_startswith "tt" emby_imdb_id) && Nat.ltb 5 (String.length emby_imdb_id)
    then <["tt" +:+ emby_imdb_id := lib_id]> d
    else if str_startswith "tt" emby_imdb_id
    then <[str_drop 2 emby_imdb_id := lib_id]> d
    else d
  else d.

Definition add_key (key lib_id : string) (d : gmap string string) : gmap string string :=
  if truthy key then <[key := lib_id]> d else d.

Definition add_path_key (path lib_id : string) (d : gmap string string)
    : gmap string string :=
  if truthy path then
    match extract_imdb_from_path path with
    | Some path_imdb_id => add_key path_imdb_id lib_id d
    | None => d
    end
  else d.

Definition add_lookups (l : lookups) (lib_item : emby_item) : lookups :=
  {| imdb_lookup := add_imdb_keys (provider_id "Imdb" lib_item) (Id lib_item) (imdb_lookup l);
     tmdb_lookup := add_key (provider_id "Tmdb" lib_item) (Id lib_item) (tmdb_lookup l);
     tvdb_lookup := add_key (provider_id "Tvdb" lib_item) (Id lib_item) (tvdb_lookup l);
     path_imdb_lookup := add_path_key (Path lib_item) (Id lib_item) (path_imdb_lookup l) |}.

Definition build_lookups (library_items : list emby_item) : lookups :=
  fold_left add_lookups library_items
    {| imdb_lookup := ∅; tmdb_lookup := ∅; tvdb_lookup := ∅; path_imdb_lookup := ∅ |}.

(** [x and x in d], then [d[x]] *)
Definition probe (x : option string) (d : gmap string string) : option string :=
  if truthy_opt x then d !! default "" x else None.

(** Steps 1 to 4 of [process_item]: the [if]/[elif] chain over the tables. *)
Definition id_chain (l : lookups) (is_show : bool)
    (normalized_imdb_id normalized_imdb_id_no_prefix tmdb_id tvdb_id : option string)
    : option string :=
  match probe normalized_imdb_id (imdb_lookup l) with
  | Some m => Some m
  | None =>
  match probe normalized_imdb_id_no_prefix (imdb_lookup l) with
  | Some m => Some m
  | None =>
  match probe normalized_imdb_id (path_imdb_lookup l) with
  | Some m => Some m
  | None =>
  match probe tmdb_id (tmdb_lookup l) with
  | Some m => Some m
  | None =>
  match probe tvdb_id (tvdb_lookup l) with
  | Some m => if is_show then Some m else None
  | None => None
  end end end end end.

(** Step 5 of [process_item]: the same name, whatever the case, and the
    same year. *)
Definition name_and_year_match (title : string) (year : option Z)
    (library_items : list emby_item) : option emby_item :=
  List.find (fun lib_item =>
               String.eqb (str_lower (Name lib_item)) (str_lower title)
               && bool_decide (ProductionYear lib_item = year))
            library_items.

(** [str(ids.get(k)).strip() if ids.get(k) else None] *)
Definition stripped_id (ids : gmap string string) (key : string) : option string :=
  if has ids key then Some (str_strip (get ids key)) else None.

(** ** Records of the registries *)

Definition with_collections (cs : list collection_ref) (r : missing_item) : missing_item :=
  {| title := title r; year := year r; ids := ids r; item_type := item_type r;
     reason := reason r; last_checked := last_checked r; collections := Some cs;
     collection_name := collection_name r; library_id := library_id r;
     trakt_ids := trakt_ids r; ignored_on := ignored_on r |}.

Definition with_last_checked (t : string) (r : missing_item) : missing_item :=
  {| title := title r; year := year r; ids := ids r; item_type := item_type r;
     reason := reason r; last_checked := t; collections := collections r;
     collection_name := collection_name r; library_id := library_id r;
     trakt_ids := trakt_ids r; ignored_on := ignored_on r |}.

Definition with_reason (s : string) (r : missing_item) : missing_item :=
  {| title := title r; year := year r; ids := ids r; item_type := item_type r;
     reason := s; last_checked := last_checked r; collections := collections r;
     collection_name := collection_name r; library_id := library_id r;
     trakt_ids := trakt_ids r; ignored_on := ignored_on r |}.

Definition with_ignored_on (t : option string) (r : missing_item) : missing_item :=
  {| title := title r; year := year r; ids := ids r; item_type := item_type r;
     reason := reason r; last_checked := last_checked r; collections := collections r;
     collection_name := collection_name r; library_id := library_id r;
     trakt_ids := trakt_ids r; ignored_on := t |}.

(** [for coll in cs: if coll.get('name') == collection_name: ...] *)
Definition collection_exists (collection_name : string) (cs : list collection_ref) : bool :=
  existsb (fun coll => String.eqb (name coll) collection_name) cs.

(** The collection is appended unless one of that name is recorded. *)
Definition merge_collection (collection_name : string) (library_id : option string)
    (cs : list collection_ref) : list collection_ref :=
  if collection_exists collection_name cs then cs
  else cs ++ [{| name := collection_name; c_library_id := library_id |}].

(** The identity of a record: [item.get('ids', {}).get('trakt')]. *)
Definition trakt_of (r : missing_item) : option string := ids r !! "trakt".

(** [ignored_trakt_id and ignored_trakt_id == trakt_id] *)
Definition same_trakt (trakt_id : option string) (r : missing_item) : bool :=
  truthy_opt (trakt_of r) && bool_decide (trakt_of r = trakt_id).

(** The position of the first element that passes [p]. *)
Fixpoint find_index {A} (p : A -> bool) (l : list A) : option nat :=
  match l with
  | [] => None
  | x :: l' => if p x then Some 0 else S <$> find_index p l'
  end.

(** The ['collections'] of a record of the missing list once it is brought
    to the new format. *)
Definition migrated_collections (r : missing_item) : list collection_ref :=
  match collections r with
  | Some cs => cs
  | None =>
      match collection_name r with
      | Some n => [{| name := n; c_library_id := library_id r |}]
      | None => []
      end
  end.

(** [sorted(item_indices, reverse=True)] *)
Fixpoint insert_desc (i : Z) (l : list Z) : list Z :=
  match l with
  | [] => [i]
  | j :: l' => if Z.leb j i then i :: l else j :: insert_desc i l'
  end.

Definition sorted_desc (l : list Z) : list Z := fold_right insert_desc [] l.

(** [0 <= item_index < len(l)], and the position as a natural number. *)
Definition valid_index {A} (item_index : Z) (l : list A) : bool :=
  Z.leb 0 item_index && Z.ltb item_index (Z.of_nat (length l)).

(** [", ".join(ts)] *)
Fixpoint join_comma (ts : list string) : string :=
  match ts with
  | [] => ""
  | [t] => t
  | t :: ts' => t +:+ ", " +:+ join_comma ts'
  end.

Section Reconciliation.

Context (E : env).

(** *** The unresolved and the ignored registry *)

Definition ignore_missing_item (item_index : Z) : M (bool * string) :=
  missing ← gets _missing_items;
  match (if valid_index item_index missing then missing !! Z.to_nat item_index else None) with
  | None => ret (false, "Invalid item index")
  | Some item =>
      t ← now E;
      let item := with_ignored_on (Some t) item in
      modify (set_ignored (fun l => l ++ [item]));;
      modify (set_missing (delete (Z.to_nat item_index)));;
      ret (true, "Ignored item: " +:+ str_of_opt (title item))
  end.

Definition unignore_item (item_index : Z) : M (bool * string) :=
  ignored ← gets _ignored_items;
  match (if valid_index item_index ignored then ignored !! Z.to_nat item_index else None) with
  | None => ret (false, "Invalid item index")
  | Some item =>
      let item := with_ignored_on None item in
      t ← now E;
      let item := with_last_checked t item in
      modify (set_missing (fun l => l ++ [item]));;
      modify (set_ignored (delete (Z.to_nat item_index)));;
      ret (true, "Unignored item: " +:+ str_of_opt (title item))
  end.

(** The loop of [ignore_missing_items] over the sorted indices, with its
    counters and the titles it collects. *)
Fixpoint ignore_loop (sorted_indices : list Z) (success_count failed_count : nat)
    (ignored_titles : list string) : M (nat * nat * list string) :=
  match sorted_indices with
  | [] => ret (success_count, failed_count, ignored_titles)
  | index :: rest =>
      missing ← gets _missing_items;
      match (if valid_index index missing then missing !! Z.to_nat index else None) with
      | None => ignore_loop rest success_count (S failed_count) ignored_titles
      | Some item =>
          t ← now E;
          let item := with_ignored_on (Some t) item in
          modify (set_ignored (fun l => l ++ [item]));;
          modify (set_missing (delete (Z.to_nat index)));;
          ignore_loop rest (S success_count) failed_count
            (ignored_titles ++ [default "Unknown" (title item)])
      end
  end.

Definition ignore_missing_items (item_indices : list Z) : M (bool * string) :=
  match item_indices with
  | [] => ret (false, "No valid items selected")
  | _ =>
      '(success_count, _, ignored_titles) ← ignore_loop (sorted_desc item_indices) 0 0 [];
      if Nat.ltb 0 success_count
      then
        let titles_str := join_comma (take 5 ignored_titles) in
        let titles_str :=
          if Nat.ltb 5 (length ignored_titles)
          then titles_str +:+ " and "
               +:+ str_of_Z (Z.of_nat (length ignored_titles) - 5) +:+ " more"
          else titles_str in
        ret (true, "Ignored " +:+ str_of_Z (Z.of_nat success_count) +:+ " items: " +:+ titles_str)
      else ret (false, "No valid items were ignored")
  end.

Definition add_to_missing_items (item_data : trakt_media) (item_type collection_name : string)
    (library_id : option string) (reason : string) : M bool :=
  let trakt_id := t_ids item_data !! "trakt" in
  let title := default "Unknown" (t_title item_data) in
  ignored ← gets _ignored_items;
  match find_index (same_trakt trakt_id) ignored with
  | Some i =>
      modify (set_ignored (alter (fun ignored_item =>
        with_collections
          (merge_collection collection_name library_id (default [] (collections ignored_item)))
          ignored_item) i));;
      ret false
  | None =>
      missing ← gets _missing_items;
      let existing_index :=
        if truthy_opt trakt_id then find_index (same_trakt trakt_id) missing else None in
      t ← now E;
      let collection_info := {| name := collection_name; c_library_id := library_id |} in
      match existing_index with
      | Some i =>
          t' ← now E;
          modify (set_missing (alter (fun existing_item =>
            with_last_checked t'
              (with_collections
                 (merge_collection collection_name library_id (migrated_collections existing_item))
                 existing_item)) i));;
          ret true
      | None =>
          modify (set_missing (fun l => l ++ [
            {| title := Some title; year := t_year item_data; ids := t_ids item_data;
               item_type := item_type; reason := reason; last_checked := t;
               collections := Some [collection_info]; collection_name := None;
               library_id := None; trakt_ids := ∅; ignored_on := None |}]));;
          ret true
      end
  end.

(** *** Resolution *)

(** [trakt_id = provider_ids['trakt'] if provider_ids.get('trakt') else None].
    The search functions only test [trakt_id] for truth and format it into
    the key of the mapping store ([f"{item_type}_{trakt_id}"]), so it is kept
    as the text the f-string makes of it. *)
Definition raw_id (provider_ids : gmap string id_value) (key : string) : option string :=
  if has_value provider_ids key then Some (str_of_value (get_value provider_ids key))
  else None.

(** The stored mapping, looked up when there is a Trakt id. *)
Definition stored_mapping (item_type : string) (trakt_id : option string)
    : M (option string) :=
  if truthy_opt trakt_id then get_emby_id_from_mapping item_type (default "" trakt_id)
  else ret None.

(** [if trakt_id: add_emby_id_mapping(...)], then [return emby_id]. *)
Definition found (trakt_id : option string) (item : emby_item) (item_type title : string)
    : M (option string) :=
  store_match E trakt_id (Id item) item_type title;;
  ret (Some (Id item)).

(** [search_movie_in_emby(title, year, provider_ids, library_id)]; no
    [provider_ids] is the empty dictionary. *)
Definition search_movie_in_emby (title : string) (year : option Z)
    (provider_ids : gmap string id_value) (library_id : option string) : M (option string) :=
  if bool_decide (provider_ids = ∅) then ret None
  else
    let trakt_id := raw_id provider_ids "trakt" in
    emby_id ← stored_mapping "movie" trakt_id;
    if truthy_opt emby_id then ret emby_id
    else
      library_items ← get_emby_library_items E "Movie" library_id false;
      match id_step provider_ids "imdb" imdb_hit library_items with
      | Some item => found trakt_id item "movie" title
      | None =>
      match id_step provider_ids "tmdb" (id_hit "Tmdb") library_items with
      | Some item => found trakt_id item "movie" title
      | None =>
      match fuzzy_title_match title year library_items with
      | Some best_match => found trakt_id best_match "movie" title
      | None => ret None
      end end end.

(** [search_tv_show_in_emby(title, year, provider_ids, library_id)] *)
Definition search_tv_show_in_emby (title : string) (year : option Z)
    (provider_ids : gmap string id_value) (library_id : option string) : M (option string) :=
  if bool_decide (provider_ids = ∅) then ret None
  else
    let trakt_id := raw_id provider_ids "trakt" in
    emby_id ← stored_mapping "show" trakt_id;
    if truthy_opt emby_id then ret emby_id
    else
      library_items ← get_emby_library_items E "Series" library_id false;
      match id_step provider_ids "tvdb" (id_hit "Tvdb") library_items with
      | Some item => found trakt_id item "show" title
      | None =>
      match id_step provider_ids "tmdb" (id_hit "Tmdb") library_items with
      | Some item => found trakt_id item "show" title
      | None =>
      match id_step provider_ids "imdb" imdb_hit library_items with
      | Some item => found trakt_id item "show" title
      | None =>
      match fuzzy_title_match title year library_items with
      | Some best_match => found trakt_id best_match "show" title
      | None => ret None
      end end end end.

(** [search_movie_in_emby(...) if item_type == 'movie' else
    search_tv_show_in_emby(...)], as [recheck_missing_item] calls them. *)
Definition search_in_emby (item_type title : string) (year : option Z)
    (provider_ids : gmap string id_value) (library_id : option string) : M (option string) :=
  if String.eqb item_type "movie"
  then search_movie_in_emby title year provider_ids library_id
  else search_tv_show_in_emby title year provider_ids library_id.

(** [item.get("movie", {})] or [item.get("show", {})], by the item's type. *)
Definition media_of (item : trakt_item) : trakt_media :=
  if String.eqb (type item) "movie" then default no_media (movie item)
  else default no_media (show item).

(** ["movie" if item.get("type") == "movie" else "show"] *)
Definition kind_of (item : trakt_item) : string :=
  if String.eqb (type item) "movie" then "movie" else "show".

(** Steps 1 to 4 of [process_item] on the library items: the tables are
    built, the entry's ids are normalized, and the chain is gone through. *)
Definition id_match_in_library (item : trakt_item) (library_items : list emby_item)
    : option string :=
  let ids := t_ids (media_of item) in
  let imdb_id := stripped_id ids "imdb" in
  let tmdb_id := stripped_id ids "tmdb" in
  let tvdb_id := stripped_id ids "tvdb" in
  let l := build_lookups library_items in
  let tt := truthy_opt imdb_id && str_startswith "tt" (default "" imdb_id) in
  let normalized_imdb_id_no_prefix :=
    if tt then str_drop 2 <$> imdb_id else imdb_id in
  let normalized_imdb_id :=
    if truthy_opt imdb_id && negb tt then (fun i => "tt" +:+ i) <$> imdb_id else imdb_id in
  id_chain l (String.eqb (type item) "show")
    normalized_imdb_id normalized_imdb_id_no_prefix tmdb_id tvdb_id.

(** Steps 1 to 5 of [process_item]: step 5 is tried when the chain gave
    nothing (or an empty target id) and the entry has a year. *)
Definition match_in_library (item : trakt_item) (library_items : list emby_item)
    : option string :=
  let title := default "" (t_title (media_of item)) in
  let year := t_year (media_of item) in
  let matched_emby_id := id_match_in_library item library_items in
  if negb (truthy_opt matched_emby_id) && truthy_year year
  then
    match name_and_year_match title year library_items with
    | Some lib_item => Some (Id lib_item)
    | None => matched_emby_id
    end
  else matched_emby_id.

Definition process_item (item : trakt_item) (access_token : string)
    (library_id : option string) (collection_name : string) : M (option matched) :=
  let media := media_of item in
  let title := default "" (t_title media) in
  let ids := t_ids media in
  if negb (has ids "imdb" || has ids "tmdb" || has ids "trakt")
  then
    add_to_missing_items media (type item) collection_name library_id
      "No usable IDs available";;
    ret None
  else
    let trakt_id := stripped_id ids "trakt" in
    emby_id ← stored_mapping (kind_of item) trakt_id;
    if truthy_opt emby_id
    then ret (Some {| r_id := default "" emby_id; r_type := type item |})
    else
      library_items ←
        get_emby_library_items E
          (if String.eqb (type item) "movie" then "Movie" else "Series") library_id false;
      let matched_emby_id := match_in_library item library_items in
      if truthy_opt matched_emby_id
      then
        store_match E trakt_id (default "" matched_emby_id) (kind_of item) title;;
        ret (Some {| r_id := default "" matched_emby_id; r_type := type item |})
      else
        add_to_missing_items media (type item) collection_name library_id
          "No matching IDs found in Emby library";;
        ret None.

(** The loop of [recheck_missing_item] over the record's collections. *)
Fixpoint add_to_collections (emby_id : string) (collections : list collection_ref)
    (success_count : nat) : M nat :=
  match collections with
  | [] => ret success_count
  | collection_info :: rest =>
      collection_id ← find_collection_by_name E (name collection_info);
      ok ← (if truthy_opt collection_id
            then add_movie_to_emby_collection E emby_id (default "" collection_id)
            else ret false);
      add_to_collections emby_id rest (if ok then S success_count else success_count)
  end.

Definition recheck_missing_item (item_index : Z) (manual_emby_id : option string)
    : M (bool * string) :=
  missing ← gets _missing_items;
  match (if valid_index item_index missing then missing !! Z.to_nat item_index else None) with
  | None => ret (false, "Invalid item index")
  | Some item =>
      let title := default "" (title item) in
      let library_id := default "" (library_id item) in
      let collection_name := default "" (collection_name item) in
      let collections := default [] (collections item) in
      let collections :=
        match collections with
        | [] =>
            if truthy collection_name
            then [{| name := collection_name; c_library_id := Some library_id |}]
            else []
        | _ => collections
        end in
      if truthy_opt manual_emby_id
      then
        let manual_emby_id := default "" manual_emby_id in
        response ← http E (GetItem manual_emby_id);
        match response with
        | Raised e => ret (false, "Error checking manual ID: " +:+ e)
        | Response code _ _ =>
            if Z.eqb code 200
            then
              (if has_value (trakt_ids item) "trakt"
               then add_emby_id_mapping E (str_of_value (get_value (trakt_ids item) "trakt"))
                      manual_emby_id
                      (item_type item) title;; ret tt
               else ret tt);;
              success_count ← add_to_collections manual_emby_id collections 0;
              if Nat.ltb 0 success_count
              then
                modify (set_missing (delete (Z.to_nat item_index)));;
                ret (true, "Added " +:+ title +:+ " to "
                           +:+ str_of_Z (Z.of_nat success_count) +:+ " collections")
              else ret (false, "Found in Emby but could not add to any collections")
            else ret (false, "Invalid Emby ID: " +:+ str_of_Z code)
        end
      else
        emby_id ← search_in_emby (item_type item) title (year item) (trakt_ids item)
                    (Some library_id);
        if truthy_opt emby_id
        then
          success_count ← add_to_collections (default "" emby_id) collections 0;
          if Nat.ltb 0 success_count
          then
            modify (set_missing (delete (Z.to_nat item_index)));;
            ret (true, "Added " +:+ title +:+ " to "
                       +:+ str_of_Z (Z.of_nat success_count) +:+ " collections")
          else
            modify (set_missing
                      (alter (with_reason "Found in Emby but collection doesn't exist")
                             (Z.to_nat item_index)));;
            ret (false, "Found " +:+ title +:+ " but could not add to any collections")
        else
          t ← now E;
          modify (set_missing (alter (with_last_checked t) (Z.to_nat item_index)));;
          ret (false, "Could not find " +:+ title +:+ " in Emby library")
  end.

End Reconciliation.

(** ** Vocabulary of the properties *)


(** The kind under which the search functions read and write the mapping
    store, and the item type they ask the library for. *)
Definition kind_of_type (item_type : string) : string :=
  if String.eqb item_type "movie" then "movie" else "show".
Definition library_type (item_type : string) : string :=
  if String.eqb item_type "movie" then "Movie" else "Series".

(** The item the search functions take from the library: the one of the
    first step that finds one, the steps in the order of
    [search_movie_in_emby] for a movie and of [search_tv_show_in_emby]
    otherwise. *)
Definition resolve (item_type title : string) (year : option Z)
    (provider_ids : gmap string id_value) (library_items : list emby_item)
    : option emby_item :=
  let steps :=
    if String.eqb item_type "movie"
    then [id_step provider_ids "imdb" imdb_hit library_items;
          id_step provider_ids "tmdb" (id_hit "Tmdb") library_items]
    else [id_step provider_ids "tvdb" (id_hit "Tvdb") library_items;
          id_step provider_ids "tmdb" (id_hit "Tmdb") library_items;
          id_step provider_ids "imdb" imdb_hit library_items] in
  match omap id steps with
  | item :: _ => Some item
  | [] => fuzzy_title_match title year library_items
  end.

(** A server that answers every library request with the same items and
    knows no collection, and a clock that counts its readings: the setting
    of the examples. *)
Definition library_server (library_items : list emby_item) : env :=
  {| EMBY_MOVIES_LIBRARY_ID := "1"; EMBY_TV_LIBRARY_ID := "2";
     emby := fun _ r =>
       match r with
       | GetLibraryItems _ _ => Response 200 library_items None
       | GetBoxSets => Response 200 [] None
       | _ => Response 404 [] None
       end;
     clock := fun n => str_of_Z (Z.of_nat n) |}.

Definition empty_world : world :=
  {| _emby_id_mapping := ∅; _missing_items := []; _ignored_items := [];
     _library_cache := ∅; http_log := []; ticks := 0 |}.

(** The [trakt_id] of [process_item]: the entry's Trakt id, trimmed, when it
    has one. *)
Definition trakt_id_of (item : trakt_item) : option string :=
  stripped_id (t_ids (media_of item)) "trakt".

(** The record of the mapping store under the entry's kind and Trakt id. *)
Definition stored_record (item : trakt_item) (w : world) : option mapping :=
  _emby_id_mapping w !! mapping_key (kind_of item) (default "" (trakt_id_of item)).

(** The stored mapping answers for the entry: it has a Trakt id, and the
    record under it holds a target id that is not empty. *)
Definition fast_path (item : trakt_item) (w : world) : bool :=
  truthy_opt (trakt_id_of item) && truthy_opt (emby_id <$> stored_record item w).

(** The id under which a record of a registry is known: its Trakt id when
    it is there and not empty. *)
Definition key (r : missing_item) : option string :=
  if truthy_opt (trakt_of r) then trakt_of r else None.

Definition keys (l : list missing_item) : list string := omap key l.

(** No id is known to both registries. *)
Definition exclusive (w : world) : Prop :=
  forall k, k ∈ keys (_missing_items w) -> k ∉ keys (_ignored_items w).

(** No id is known twice, within a registry or across the two. *)
Definition one_record_per_id (w : world) : Prop :=
  NoDup (keys (_missing_items w) ++ keys (_ignored_items w)).

(** The operations on the registries. *)
Inductive registry_op :=
| AddUnresolved (item_data : trakt_media) (item_type collection_name : string)
    (library_id : option string) (reason : string)
| Ignore (item_index : Z)
| IgnoreMany (item_indices : list Z)
| Unignore (item_index : Z).

Definition run_op (E : env) (op : registry_op) (w : world) : world :=
  match op with
  | AddUnresolved item_data item_type collection_name library_id reason =>
      (add_to_missing_items E item_data item_type collection_name library_id reason w).2
  | Ignore item_index => (ignore_missing_item E item_index w).2
  | IgnoreMany item_indices => (ignore_missing_items E item_indices w).2
  | Unignore item_index => (unignore_item E item_index w).2
  end.

Definition run_ops (E : env) (ops : list registry_op) (w : world) : world :=
  fold_left (fun w op => run_op E op w) ops w.

(** A record of the unresolved registry as [add_to_missing_items] makes it,
    for the examples. *)
Definition unresolved (title trakt_id collection : string) : missing_item :=
  {| title := Some title; year := None; ids := {["trakt" := trakt_id]};
     item_type := "movie"; reason := "No matching IDs found in Emby library";
     last_checked := "2024-01-01T00:00:00";
     collections := Some [{| name := collection; c_library_id := Some "7" |}];
     collection_name := None; library_id := None; trakt_ids := ∅; ignored_on := None |}.

(** What [add_to_missing_items] does to the record of the ignored registry
    that has the entry's id. *)
Definition merged_into (collection_name : string) (library_id : option string)
    (ignored_item : missing_item) : missing_item :=
  with_collections
    (merge_collection collection_name library_id (default [] (collections ignored_item)))
    ignored_item.

(** ** Further functions of the module *)

(** [item.get('collection_name') == collection_name], on the key of the old
    format. *)
Definition old_collection_is (collection : string) (item : missing_item) : bool :=
  bool_decide (collection_name item = Some collection).

(** [clear_missing_items_for_collection(collection_name)] *)
Definition clear_missing_items_for_collection (collection_name : string) : M nat :=
  modify (set_missing
            (List.filter (fun item => negb (old_collection_is collection_name item))));;
  gets (fun w => length (_missing_items w)).

(** [clear_library_cache()] *)
Definition clear_library_cache : M unit := modify (set_cache (fun _ => ∅)).

(** [s.split(sep)] for a separator that is not empty: scanning from the
    left, an occurrence of the separator ends the current part; [skip] counts
    the characters of the occurrence still to pass, [cur] is the part being
    read, last character first. *)
Fixpoint split_on_go (sep : list ascii) (skip : nat) (cur : list ascii) (s : list ascii)
    : list (list ascii) :=
  match s with
  | [] => [rev cur]
  | c :: s' =>
      match skip with
      | S k => split_on_go sep k cur s'
      | O =>
          if Text.startswith sep s
          then rev cur :: split_on_go sep (Nat.pred (length sep)) [] s'
          else split_on_go sep 0 (c :: cur) s'
      end
  end.

Definition split_on (sep s : list ascii) : list (list ascii) := split_on_go sep 0 [] s.

(** [extract_emby_id_from_url(url)] *)
Definition extract_emby_id_from_url (url : string) : option string :=
  if negb (truthy url) || negb (str_contains "id=" url) then None
  else
    match split_on (Text.chars "id=") (Text.chars url) with
    | _ :: id_part :: _ =>
        if Text.contains (Text.chars "&") id_part
        then Some (string_of_list_ascii (hd [] (split_on (Text.chars "&") id_part)))
        else Some (string_of_list_ascii id_part)
    | _ => None
    end.

(** The library id [get_emby_library_items] asks the server with: the one
    given, or the configured one of the item type. *)
Definition library_id_used (E : env) (item_type : string) (library_id : option string)
    : string :=
  if truthy_opt library_id then default "" library_id
  else if String.eqb item_type "Movie" then EMBY_MOVIES_LIBRARY_ID E
  else if String.eqb item_type "Series" then EMBY_TV_LIBRARY_ID E
  else "".

(** The key of the library cache. *)
Definition cache_key (item_type : string) (library_id : option string) : string :=
  item_type +:+ "_" +:+ str_of_opt library_id.

(** The two kinds under which mappings are stored. *)
Definition is_kind (k : string) : Prop := k = "movie" \/ k = "show".

(** The spellings under which [process_item] enters an item's IMDB id in
    its table: as it is, with [tt] put before it when it has none and is
    longer than five characters, without its [tt] when it has one. *)
Definition imdb_spellings (emby_imdb_id : string) : list string :=
  if truthy emby_imdb_id then
    emby_imdb_id ::
    (if negb (str_startswith "tt" emby_imdb_id) && Nat.ltb 5 (String.length emby_imdb_id)
     then ["tt" +:+ emby_imdb_id]
     else if str_startswith "tt" emby_imdb_id then [str_drop 2 emby_imdb_id] else [])
  else [].

(** The entry's IMDB id as [process_item] looks it up first: with [tt]. *)
Definition with_tt (imdb_id : string) : string :=
  if str_startswith "tt" imdb_id then imdb_id else "tt" +:+ imdb_id.

(** The record [add_to_missing_items] makes of an entry at time [t]. *)
Definition new_record (item_data : trakt_media) (item_type collection_name : string)
    (library_id : option string) (reason t : string) : missing_item :=
  {| title := Some (default "Unknown" (t_title item_data)); year := t_year item_data;
     ids := t_ids item_data; item_type := item_type; reason := reason; last_checked := t;
     collections := Some [{| name := collection_name; c_library_id := library_id |}];
     collection_name := None; library_id := None; trakt_ids := ∅; ignored_on := None |}.

(** The film and the entry of the further examples: the library stores the
    IMDB id without [tt], the list has it with [tt]. *)
Definition heat_item : emby_item :=
  {| Id := "10"; Name := "Heat"; ProductionYear := Some 1995%Z;
     ProviderIds := {["Imdb" := "0113277"; "Tmdb" := "949"]}; Path := "" |}.

Definition heat_entry (ids : gmap string string) : trakt_item :=
  {| type := "movie";
     movie := Some {| t_title := Some "Heat"; t_year := Some 1995%Z; t_ids := ids |};
     show := None |}.

(** The list without the elements at the given positions, the first
    element being at position [from]. *)
Fixpoint drop_positions {A} (from : Z) (indices : list Z) (l : list A) : list A :=
  match l with
  | [] => []
  | x :: l' =>
      if existsb (Z.eqb from) indices then drop_positions (from + 1) indices l'
      else x :: drop_positions (from + 1) indices l'
  end.

(** What the loop of [ignore_missing_items] leaves of the unresolved
    registry: each index in its turn is deleted if it is one of the list as
    it is then. *)
Definition delete_each {A} (indices : list Z) (l : list A) : list A :=
  fold_left (fun l i => if valid_index i l then delete (Z.to_nat i) l else l) indices l.

(** Every element is greater than all that follow it. *)
Fixpoint descending (l : list Z) : Prop :=
  match l with
  | [] => True
  | i :: rest => Forall (fun j => (j < i)%Z) rest /\ descending rest
  end.

(** A record as the module itself writes it: without the keys ['trakt_ids']
    and ['collection_name'], which only a registry file of another origin
    can bring in. *)
Definition written_here (r : missing_item) : Prop :=
  trakt_ids r = ∅ /\ collection_name r = None.

Definition registries_written_here (w : world) : Prop :=
  Forall written_here (_missing_items w ++ _ignored_items w).

(** [item.get('Name', '').lower() == collection_name.lower()] *)
Definition named (collection_name : string) (item : emby_item) : bool :=
  String.eqb (str_lower (Name item)) (str_lower collection_name).



(** The tag [[imdbid-tt<digits>]] of a path. *)
Definition imdb_tag (ds : list ascii) : list ascii :=
  Text.chars "[imdbid-tt" ++ ds ++ ["]"%char].

(** One decimal digit or more. *)
Definition digits (ds : list ascii) : Prop :=
  ds <> [] /\ forallb Text.is_digit ds = true.

(** A word of letters that are not capitals, digits and underscores. *)
Definition plain_word (w : list ascii) : Prop :=
  w <> [] /\ Forall (fun c => Text.is_word c = true /\ Text.lower_char c = c) w.

(** The item passes the year test of the fuzzy fallback. *)
Definition in_window (year : option Z) (item : emby_item) : bool :=
  negb (year_too_far year (ProductionYear item)).

(** The item passes the year test and its normalized name is the normalized
    title. *)
Definition same_title (normalized_title : string) (year : option Z) (item : emby_item) : bool :=
  in_window year item && String.eqb normalized_title (normalize_title (Name item)).

(** One of the three tests of the fuzzy fallback holds of the normalized
    title and the item's normalized name. *)
Definition similar (normalized_title : string) (item : emby_item) : Prop :=
  let normalized_item_title := normalize_title (Name item) in
  normalized_title = normalized_item_title \/
  str_contains normalized_title normalized_item_title = true \/
  str_contains normalized_item_title normalized_title = true \/
  Qlt_bool (6 # 10) (overlap_score (word_set normalized_title) (word_set normalized_item_title))
  = true.

(** No occurrence of [sep] in [pre ++ s] starts within [pre]. *)
Fixpoint starts_free (sep pre s : list ascii) : Prop :=
  match pre with
  | [] => True
  | _ :: pre' => Text.startswith sep (pre ++ s) = false /\ starts_free sep pre' s
  end.

(** The mapping store and the registries of [w'] are those of [w]. *)
Definition same_stores (w w' : world) : Prop :=
  _emby_id_mapping w' = _emby_id_mapping w /\
  _missing_items w' = _missing_items w /\
  _ignored_items w' = _ignored_items w.

(** * Properties *)

(** ** Truth values *)

Lemma truthy_strip s : truthy (str_strip s) = true -> truthy s = true.
Proof. by destruct s. Qed.

Lemma has_get ids key : has ids key = truthy (get ids key).
Proof. unfold has, get. by destruct (ids !! key). Qed.

(** ** Title normalization *)

Module TextFacts.
Import Text.

Lemma lower_char_twice c : lower_char (lower_char c) = lower_char c.
Proof. destruct c as [[] [] [] [] [] [] [] []]; reflexivity. Qed.


Lemma drop_while_suffix p s : exists pre, s = pre ++ drop_while p s.
Proof.
  induction s as [|c s [pre IH]]; simpl.
  - by exists [].
  - destruct (p c).
    + exists (c :: pre). simpl. by f_equal.
    + by exists [].
Qed.

Lemma Forall_drop_while (P : ascii -> Prop) p s : Forall P s -> Forall P (drop_while p s).
Proof.
  intros H. destruct (drop_while_suffix p s) as [pre Hpre].
  rewrite Hpre in H. by apply Forall_app in H as [_ ?].
Qed.

Lemma strip_prefix_app p s r : strip_prefix p s = Some r -> s = p ++ r.
Proof.
  revert s. induction p as [|a p IH]; intros [|b s]; simpl; try congruence.
  destruct (Ascii.eqb a b) eqn:Hab; [|done].
  apply Ascii.eqb_eq in Hab. subst b. intros H. by rewrite (IH _ H).
Qed.

Lemma Forall_strip_prefix_ws (P : ascii -> Prop) p s r :
  strip_prefix_ws p s = Some r -> Forall P s -> Forall P r.
Proof.
  unfold strip_prefix_ws. destruct (strip_prefix p s) as [[|c t]|] eqn:Hp; try done.
  destruct (is_space c); [|done]. intros [= <-] H.
  apply strip_prefix_app in Hp. subst s.
  apply Forall_app in H as [_ H]. apply Forall_cons in H as [_ H].
  by apply Forall_drop_while.
Qed.

Lemma Forall_sub_article (P : ascii -> Prop) s : Forall P s -> Forall P (sub_article s).
Proof.
  intros H. unfold sub_article.
  repeat (match goal with
          | |- context [strip_prefix_ws ?p s] =>
              destruct (strip_prefix_ws p s) eqn:?; [by eapply Forall_strip_prefix_ws|]
          end).
  done.
Qed.

Lemma Forall_sub_marvel (P : ascii -> Prop) s : Forall P s -> Forall P (sub_marvel s).
Proof.
  intros H. unfold sub_marvel.
  repeat (match goal with
          | |- context [strip_prefix_ws ?p s] =>
              destruct (strip_prefix_ws p s) eqn:?; [by eapply Forall_strip_prefix_ws|]
          end).
  done.
Qed.

Lemma Forall_sub_year_go (P : ascii -> Prop) skip s :
  Forall P s -> Forall P (sub_year_go skip s).
Proof.
  intros H. revert skip. induction H as [|c s Hc Hs IH]; intros skip; simpl; [done|].
  destruct skip; [|apply IH].
  destruct (match_year (c :: s)); [apply IH|]. constructor; [done|apply IH].
Qed.





Lemma split_go_words (P : ascii -> Prop) cur s :
  Forall (fun c => P c /\ is_space c = false) cur -> Forall P s ->
  Forall (word P) (split_go cur s).
Proof.
  intros Hcur Hs. revert cur Hcur.
  induction Hs as [|c s Hc Hs IH]; intros cur Hcur; simpl.
  - destruct cur as [|a cur]; [done|]. constructor; [|done].
    split; [|by apply Forall_rev].
    intros Hnil. apply (f_equal (@length ascii)) in Hnil.
    rewrite length_rev in Hnil. done.
  - destruct (is_space c) eqn:Hsp.
    + destruct cur as [|a cur]; [by apply IH|].
      constructor; [|by apply IH].
      split; [|by apply Forall_rev].
      intros Hnil. apply (f_equal (@length ascii)) in Hnil.
      rewrite length_rev in Hnil. done.
    + apply IH. by constructor.
Qed.







(** The words of a normalized title, and what their characters are. *)
Lemma normalize_chars_words t :
  Forall (word (fun c => clean c = true))
    (split (sub_marvel (sub_article (sub_punct (sub_year (lower t)))))).
Proof.
  apply split_go_words; [done|].
  apply Forall_sub_marvel, Forall_sub_article.
  unfold sub_punct. apply List.Forall_forall. intros c Hc.
  apply List.filter_In in Hc as [Hc Hw].
  unfold clean. rewrite Hw. simpl. apply Ascii.eqb_eq.
  assert (Forall (fun c => lower_char c = c) (sub_year (lower t))) as H.
  { apply Forall_sub_year_go. unfold lower. apply Forall_map.
    apply Forall_true. intros. apply lower_char_twice. }
  by eapply (proj1 (List.Forall_forall _ _) H).
Qed.




(** *** No other fixed points *)









End TextFacts.

(** *** The tokens a second pass takes off *)

Module TokenFacts.
Import Text.










End TokenFacts.







(** ** The fuzzy fallback *)

(** Whatever the loop keeps as its best match was its best match before or
    is an item of the library that passed the year test. *)
Lemma fuzzy_loop_best (P : emby_item -> Prop) nt year lib bm bs :
  (forall it, bm = Some it -> P it) ->
  (forall it, In it lib -> year_too_far year (ProductionYear it) = false -> P it) ->
  forall it, (fuzzy_loop nt year lib bm bs).1 = Some it -> P it.
Proof.
  revert bm bs. induction lib as [|item rest IH]; intros bm bs Hbm Hlib it; simpl.
  - apply Hbm.
  - destruct (year_too_far year (ProductionYear item)) eqn:Hfar.
    + apply IH; [done|]. intros ? ? ?. apply Hlib; [by right|done].
    + assert (P item) as Hitem by (apply Hlib; [by left|done]).
      destruct (String.eqb nt (normalize_title (Name item))).
      { simpl. by intros [= <-]. }
      repeat match goal with
             | |- context [if ?b then (Some item, ?q) else ?e] => destruct b
             end;
        (apply IH; [|intros ? ? ?; apply Hlib; [by right|done]]);
        first [done | by intros ? [= <-]].
Qed.

Lemma fuzzy_title_match_best title year lib item :
  fuzzy_title_match title year lib = Some item ->
  In item lib /\ year_too_far year (ProductionYear item) = false.
Proof.
  unfold fuzzy_title_match.
  destruct (fuzzy_loop (normalize_title title) year lib None 0) as [bm bs] eqn:Hloop.
  destruct bm as [it|]; [|done]. destruct (Qle_bool _ _); [|done]. intros [= ->].
  apply (fuzzy_loop_best (fun it => In it lib /\ year_too_far year (ProductionYear it) = false)
           (normalize_title title) year lib None 0); [done|done|by rewrite Hloop].
Qed.

(** C1, the counterexample: a year of [0] is false in the guard
    [year and item_year and ...], so no item is skipped for its year, and the
    entry "Dune" of year 0 takes the library's "Dune" of 1984, in the fuzzy
    fallback and so in [search_movie_in_emby], which no id step ends. *)
Lemma fuzzy_title_match_year_zero :
  let item := {| Id := "84"; Name := "Dune"; ProductionYear := Some 1984%Z;
                 ProviderIds := ∅; Path := "" |} in
  (1 < Z.abs (1984 - 0))%Z /\
  fuzzy_title_match "Dune" (Some 0%Z) [item] = Some item /\
  (search_movie_in_emby (library_server [item]) "Dune" (Some 0%Z)
     {["slug" := IdText "dune"]} (Some "7") empty_world).1 = Some "84".
Proof. split; [lia|]. split; vm_compute; reflexivity. Qed.

(** C1, as amended: when the entry's year [Y] and the item's production year
    [y] are both there and not [0], and they are more than one year apart, the
    fuzzy fallback of [search_movie_in_emby] and [search_tv_show_in_emby]
    does not return the item, whatever the titles are. *)
Theorem fuzzy_title_match_year_window title (Y y : Z) lib item :
  Y <> 0%Z -> y <> 0%Z -> ProductionYear item = Some y -> (1 < Z.abs (y - Y))%Z ->
  fuzzy_title_match title (Some Y) lib <> Some item.
Proof.
  intros HY Hy Hitem Hfar Hmatch.
  apply fuzzy_title_match_best in Hmatch as [_ Hwin].
  rewrite Hitem in Hwin. unfold year_too_far in Hwin. simpl in Hwin.
  apply andb_false_iff in Hwin as [Hwin|Hwin].
  - apply andb_false_iff in Hwin as [Hwin|Hwin];
      apply negb_false_iff, Z.eqb_eq in Hwin; done.
  - apply Z.ltb_ge in Hwin. lia.
Qed.

(** The theorem at the entry "Dune" of 2021 and the library's "Dune" of
    1984. *)
Lemma fuzzy_title_match_year_window_witness :
  let item := {| Id := "84"; Name := "Dune"; ProductionYear := Some 1984%Z;
                 ProviderIds := ∅; Path := "" |} in
  (1 < Z.abs (1984 - 2021))%Z /\
  fuzzy_title_match "Dune" (Some 2021%Z) [item] <> Some item.
Proof.
  intros item. split; [lia|].
  apply (fuzzy_title_match_year_window "Dune" 2021 1984 [item] item); [lia|lia|reflexivity|lia].
Defined.

(** ** The order of the matching steps *)

Section Resolution.

Context (E : env).

Lemma found_result trakt_id item item_type title w :
  (found E trakt_id item item_type title w).1 = Some (Id item).
Proof.
  unfold found, store_match, add_emby_id_mapping, bind, ret, modify.
  by destruct (truthy_opt trakt_id).
Qed.

Lemma has_not_empty (ids : gmap string id_value) key : has_value ids key = true -> ids <> ∅.
Proof. intros H ->. unfold has_value in H. by rewrite lookup_empty in H. Qed.

(** The text of a number is never empty. *)
Lemma str_of_Z_truthy n : truthy (str_of_Z n) = true.
Proof. unfold str_of_Z. by destruct (Z.to_int n) as [[]|[]]. Qed.

(** A value that is true has a text that is true. *)
Lemma truthy_str_of_value v : truthy_value v = true -> truthy (str_of_value v) = true.
Proof. destruct v as [s|n|]; [done| |done]. intros _. apply str_of_Z_truthy. Qed.

Lemma has_value_raw_id (ids : gmap string id_value) key :
  has_value ids key = true -> truthy_opt (raw_id ids key) = true.
Proof.
  intros H. unfold raw_id. rewrite H. simpl. apply truthy_str_of_value.
  unfold has_value, get_value in *. by destruct (ids !! key).
Qed.

(** The search functions in one piece, when the stored mapping does not
    answer: the library is read, and the item that [resolve] takes from it is
    recorded and returned. *)
Lemma search_in_emby_run item_type title year ids library_id w :
  ids <> ∅ ->
  truthy_opt (stored_mapping (kind_of_type item_type) (raw_id ids "trakt") w).1 = false ->
  search_in_emby E item_type title year ids library_id w =
  let r := get_emby_library_items E (library_type item_type) library_id false w in
  match resolve item_type title year ids r.1 with
  | Some item => found E (raw_id ids "trakt") item (kind_of_type item_type) title r.2
  | None => (None, r.2)
  end.
Proof.
  intros Hids Hstored.
  unfold search_in_emby, resolve, kind_of_type, library_type in *.
  destruct (String.eqb item_type "movie").
  - unfold search_movie_in_emby. rewrite bool_decide_eq_false_2 by done.
    unfold bind.
    assert ((stored_mapping "movie" (raw_id ids "trakt") w).2 = w) as Hw.
    { unfold stored_mapping, get_emby_id_from_mapping, gets, ret.
      by destruct (truthy_opt (raw_id ids "trakt")). }
    destruct (stored_mapping "movie" (raw_id ids "trakt") w) as [stored w0].
    simpl in *. subst w0. rewrite Hstored.
    destruct (get_emby_library_items E "Movie" library_id false w) as [lib w1]. simpl.
    destruct (id_step ids "imdb" imdb_hit lib); [done|].
    destruct (id_step ids "tmdb" (id_hit "Tmdb") lib); [done|]. simpl.
    by destruct (fuzzy_title_match title year lib).
  - unfold search_tv_show_in_emby. rewrite bool_decide_eq_false_2 by done.
    unfold bind.
    assert ((stored_mapping "show" (raw_id ids "trakt") w).2 = w) as Hw.
    { unfold stored_mapping, get_emby_id_from_mapping, gets, ret.
      by destruct (truthy_opt (raw_id ids "trakt")). }
    destruct (stored_mapping "show" (raw_id ids "trakt") w) as [stored w0].
    simpl in *. subst w0. rewrite Hstored.
    destruct (get_emby_library_items E "Series" library_id false w) as [lib w1]. simpl.
    destruct (id_step ids "tvdb" (id_hit "Tvdb") lib); [done|].
    destruct (id_step ids "tmdb" (id_hit "Tmdb") lib); [done|].
    destruct (id_step ids "imdb" imdb_hit lib); [done|]. simpl.
    by destruct (fuzzy_title_match title year lib).
Qed.




(** The fuzzy fallback is what is left when no id step finds an item. *)
Lemma resolve_fuzzy item_type title year ids lib :
  id_step ids "imdb" imdb_hit lib = None ->
  id_step ids "tmdb" (id_hit "Tmdb") lib = None ->
  id_step ids "tvdb" (id_hit "Tvdb") lib = None ->
  resolve item_type title year ids lib = fuzzy_title_match title year lib.
Proof.
  intros H1 H2 H3. unfold resolve. rewrite H1, H2, H3.
  by destruct (String.eqb item_type "movie").
Qed.



(** When the stored mapping does not answer and no id step finds an item,
    what the search returns is the target id of the fuzzy match. *)
Lemma search_in_emby_fuzzy_path item_type title year ids library_id w :
  ids <> ∅ ->
  truthy_opt (stored_mapping (kind_of_type item_type) (raw_id ids "trakt") w).1 = false ->
  let lib := (get_emby_library_items E (library_type item_type) library_id false w).1 in
  id_step ids "imdb" imdb_hit lib = None ->
  id_step ids "tmdb" (id_hit "Tmdb") lib = None ->
  id_step ids "tvdb" (id_hit "Tvdb") lib = None ->
  (search_in_emby E item_type title year ids library_id w).1
  = Id <$> fuzzy_title_match title year lib.
Proof.
  intros Hids Hstored lib H1 H2 H3.
  rewrite search_in_emby_run by done. cbv zeta. fold lib.
  rewrite (resolve_fuzzy _ _ _ _ _ H1 H2 H3).
  destruct (fuzzy_title_match title year lib); [|done]. by rewrite found_result.
Qed.

(** The target id the fuzzy path of the search returns is that of an item
    of the library that passed the year test. *)
Lemma search_in_emby_fuzzy_in_window item_type title year ids library_id w emby_id :
  ids <> ∅ ->
  truthy_opt (stored_mapping (kind_of_type item_type) (raw_id ids "trakt") w).1 = false ->
  let lib := (get_emby_library_items E (library_type item_type) library_id false w).1 in
  id_step ids "imdb" imdb_hit lib = None ->
  id_step ids "tmdb" (id_hit "Tmdb") lib = None ->
  id_step ids "tvdb" (id_hit "Tvdb") lib = None ->
  (search_in_emby E item_type title year ids library_id w).1 = Some emby_id ->
  exists item, In item lib /\ Id item = emby_id /\
               year_too_far year (ProductionYear item) = false.
Proof.
  intros Hids Hstored lib H1 H2 H3.
  rewrite (search_in_emby_fuzzy_path _ _ _ _ _ _ Hids Hstored H1 H2 H3). fold lib.
  destruct (fuzzy_title_match title year lib) as [item|] eqn:Hf; [|done].
  intros [= <-]. exists item. by destruct (fuzzy_title_match_best _ _ _ _ Hf).
Qed.

(** X24: the fast path of the search functions: a stored target id that
    is not empty is returned, and the world is left as it is. *)
Lemma search_in_emby_fast_path item_type title year ids library_id w m :
  has_value ids "trakt" = true ->
  _emby_id_mapping w
    !! mapping_key (kind_of_type item_type) (str_of_value (get_value ids "trakt")) = Some m ->
  truthy (emby_id m) = true ->
  search_in_emby E item_type title year ids library_id w = (Some (emby_id m), w).
Proof.
  intros Hhas Hrec Hm.
  pose proof (has_value_raw_id ids "trakt" Hhas) as Hraw.
  unfold search_in_emby, kind_of_type in *.
  destruct (String.eqb item_type "movie");
    unfold search_movie_in_emby, search_tv_show_in_emby;
    rewrite bool_decide_eq_false_2 by eauto using has_not_empty;
    unfold bind, stored_mapping, get_emby_id_from_mapping, gets, ret;
    rewrite Hraw; unfold raw_id; rewrite Hhas; simpl; rewrite Hrec; simpl;
    by rewrite Hm.
Qed.

(** *** The chain of [process_item] *)

Lemma build_lookups_snoc lib x :
  build_lookups (lib ++ [x]) = add_lookups (build_lookups lib) x.
Proof. unfold build_lookups. by rewrite fold_left_app. Qed.

(** The table of an id family holds, under an id that is not empty, the
    target id of the last item of the library with that id. *)
Lemma tmdb_lookup_last lib k :
  truthy k = true ->
  tmdb_lookup (build_lookups lib) !! k
  = Id <$> List.find (fun it => String.eqb (provider_id "Tmdb" it) k) (rev lib).
Proof.
  intros Hk. induction lib as [|x lib IH] using rev_ind; [done|].
  rewrite build_lookups_snoc, rev_app_distr. simpl. unfold add_key.
  destruct (String.eqb (provider_id "Tmdb" x) k) eqn:Hx.
  - apply String.eqb_eq in Hx. rewrite Hx, Hk. by rewrite lookup_insert_eq.
  - apply String.eqb_neq in Hx.
    destruct (truthy (provider_id "Tmdb" x)); [|done].
    by rewrite lookup_insert_ne.
Qed.

(** In the chain, an entry without an IMDB id that has a TMDB id takes the
    last item with that TMDB id. *)
Lemma id_match_in_library_tmdb item lib k a :
  has (t_ids (media_of item)) "imdb" = false ->
  stripped_id (t_ids (media_of item)) "tmdb" = Some k -> truthy k = true ->
  List.find (fun it => String.eqb (provider_id "Tmdb" it) k) (rev lib) = Some a ->
  id_match_in_library item lib = Some (Id a).
Proof.
  intros Himdb Htmdb Hk Ha. unfold id_match_in_library, stripped_id in *.
  rewrite Himdb. simpl. unfold id_chain, probe. simpl.
  destruct (has (t_ids (media_of item)) "tmdb"); [|done].
  injection Htmdb as Htmdb. rewrite Htmdb. simpl. rewrite Hk.
  by rewrite (tmdb_lookup_last lib k Hk), Ha.
Qed.

(** A target id from the chain that is not empty is what [process_item]
    matches: step 5, the comparison of name and year, is not tried. *)
Lemma match_in_library_id_first item lib :
  truthy_opt (id_match_in_library item lib) = true ->
  match_in_library item lib = id_match_in_library item lib.
Proof. intros H. unfold match_in_library. by rewrite H. Qed.

(** X25: so in [process_item] too the item with the entry's TMDB id is
    taken when its target id is not empty, whatever item has the entry's name
    and year. *)
Lemma match_in_library_tmdb_before_name item lib k a :
  has (t_ids (media_of item)) "imdb" = false ->
  stripped_id (t_ids (media_of item)) "tmdb" = Some k -> truthy k = true ->
  List.find (fun it => String.eqb (provider_id "Tmdb" it) k) (rev lib) = Some a ->
  truthy (Id a) = true ->
  match_in_library item lib = Some (Id a).
Proof.
  intros Himdb Htmdb Hk Ha Hid.
  rewrite match_in_library_id_first;
    rewrite (id_match_in_library_tmdb item lib k a) by done; done.
Qed.

End Resolution.



(** ** The stored mapping *)

(** C3, the counterexample: the store has a record for the entry, but its
    target id is empty; [if emby_id:] is false for it, and [process_item]
    goes on to fetch the library. *)
Lemma process_item_empty_stored_id :
  let w := set_mapping (insert "movie_1"
             {| emby_id := ""; m_type := "movie"; m_title := "Heat"; last_updated := "t" |})
             empty_world in
  let item := {| type := "movie";
                 movie := Some {| t_title := Some "Heat"; t_year := Some 1995%Z;
                                  t_ids := {["trakt" := "1"]} |};
                 show := None |} in
  is_Some (stored_record item w) /\
  (process_item (library_server []) item "" (Some "7") "Crime" w).1 = None /\
  http_log (process_item (library_server []) item "" (Some "7") "Crime" w).2
    = [GetLibraryItems "Movie" "7"].
Proof. intros w item. split; [by eexists|]. split; vm_compute; reflexivity. Qed.

Section FastPath.

Context (E : env).

(** C3, as amended: when the entry has a Trakt id and the mapping store
    holds, under the entry's kind and that id, a record whose target id is
    not empty, [process_item] returns that target id and leaves the world as
    it is: no request is sent, the library cache is not read into, nothing
    is written. *)
Theorem process_item_fast_path item access_token library_id collection_name w m :
  truthy_opt (trakt_id_of item) = true ->
  stored_record item w = Some m ->
  truthy (emby_id m) = true ->
  process_item E item access_token library_id collection_name w
  = (Some {| r_id := emby_id m; r_type := type item |}, w).
Proof.
  unfold stored_record. unfold trakt_id_of, stripped_id.
  destruct (has (t_ids (media_of item)) "trakt") eqn:Hhas; [|done]. simpl.
  intros Hid Hrec Hm.
  unfold process_item. rewrite Hhas, !orb_true_r. simpl.
  unfold stripped_id, stored_mapping. rewrite Hhas. simpl. rewrite Hid.
  unfold bind, get_emby_id_from_mapping, gets. rewrite Hrec. simpl. by rewrite Hm.
Qed.

End FastPath.

(** The theorem at a store with one record, for an entry whose Trakt id
    comes with blanks around it. *)
Lemma process_item_fast_path_witness :
  let w := set_mapping (insert "movie_1"
             {| emby_id := "10"; m_type := "movie"; m_title := "Heat"; last_updated := "t" |})
             empty_world in
  let item := {| type := "movie";
                 movie := Some {| t_title := Some "Heat"; t_year := Some 1995%Z;
                                  t_ids := {["trakt" := " 1 "]} |};
                 show := None |} in
  process_item (library_server []) item "" (Some "7") "Crime" w
  = (Some {| r_id := "10"; r_type := "movie" |}, w).
Proof.
  intros w item.
  apply (process_item_fast_path (library_server []) item "" (Some "7") "Crime" w
           {| emby_id := "10"; m_type := "movie"; m_title := "Heat"; last_updated := "t" |});
    vm_compute; reflexivity.
Defined.

(** ** Writes to the mapping store *)

(** C4, the counterexample: on the fast path [process_item] returns the
    stored target id and writes nothing; the world, with the record's old
    time stamp and the clock not read, is the one it was called in. *)
Lemma process_item_fast_path_writes_nothing :
  let old := {| emby_id := "31"; m_type := "show"; m_title := "Dark";
                last_updated := "2024-01-01T00:00:00" |} in
  let w := set_mapping (insert "show_42" old) empty_world in
  let item := {| type := "show"; movie := None;
                 show := Some {| t_title := Some "Dark"; t_year := Some 2017%Z;
                                 t_ids := {["trakt" := "42"]} |} |} in
  process_item (library_server []) item "" (Some "3") "Series" w
  = (Some {| r_id := "31"; r_type := "show" |}, w) /\
  _emby_id_mapping w !! "show_42" = Some old.
Proof. intros old w item. split; vm_compute; reflexivity. Qed.

Section MappingWrites.

Context (E : env).

(** Reading the library touches the cache and the request log only. *)
Lemma get_emby_library_items_frame item_type library_id force w :
  let w' := (get_emby_library_items E item_type library_id force w).2 in
  _emby_id_mapping w' = _emby_id_mapping w /\
  _missing_items w' = _missing_items w /\
  _ignored_items w' = _ignored_items w /\
  ticks w' = ticks w.
Proof.
  unfold get_emby_library_items, bind, gets, ret, modify, http. simpl.
  destruct force; simpl;
    repeat match goal with
           | |- context [match ?x with _ => _ end] => destruct x; simpl
           end; done.
Qed.

(** Recording an unresolved entry leaves the mapping store alone. *)
Lemma add_to_missing_items_mapping item_data item_type collection_name library_id reason w :
  _emby_id_mapping
    (add_to_missing_items E item_data item_type collection_name library_id reason w).2
  = _emby_id_mapping w.
Proof.
  unfold add_to_missing_items, bind, gets, ret, modify, now. simpl.
  repeat match goal with
         | |- context [match ?x with _ => _ end] => destruct x; simpl
         end; done.
Qed.

(** [process_item] in one piece: the outcome and the world of each of its
    four ways out. *)
Lemma process_item_run item access_token library_id collection_name w :
  let ids := t_ids (media_of item) in
  let title := default "" (t_title (media_of item)) in
  process_item E item access_token library_id collection_name w =
  if negb (has ids "imdb" || has ids "tmdb" || has ids "trakt")
  then (None, (add_to_missing_items E (media_of item) (type item) collection_name
                 library_id "No usable IDs available" w).2)
  else if fast_path item w
  then (Some {| r_id := default "" (emby_id <$> stored_record item w);
                r_type := type item |}, w)
  else
    let r := get_emby_library_items E
               (if String.eqb (type item) "movie" then "Movie" else "Series")
               library_id false w in
    let matched_emby_id := match_in_library item r.1 in
    if truthy_opt matched_emby_id
    then (Some {| r_id := default "" matched_emby_id; r_type := type item |},
          (store_match E (trakt_id_of item) (default "" matched_emby_id)
             (kind_of item) title r.2).2)
    else (None, (add_to_missing_items E (media_of item) (type item) collection_name
                   library_id "No matching IDs found in Emby library" r.2).2).
Proof.
  intros ids title. unfold process_item, fast_path, stored_record, trakt_id_of.
  fold ids. fold title.
  destruct (negb (has ids "imdb" || has ids "tmdb" || has ids "trakt")).
  { unfold bind, ret. by destruct (add_to_missing_items _ _ _ _ _ _ w). }
  unfold stored_mapping, get_emby_id_from_mapping, bind, ret, gets.
  destruct (truthy_opt (stripped_id ids "trakt")) eqn:Hid; simpl.
  - destruct (truthy_opt (emby_id <$> _)) eqn:Hstored; [done|].
    destruct (get_emby_library_items _ _ _ _ w) as [lib w1]. simpl.
    destruct (truthy_opt (match_in_library item lib)).
    + by destruct (store_match _ _ _ _ _ w1).
    + by destruct (add_to_missing_items _ _ _ _ _ _ w1).
  - destruct (get_emby_library_items _ _ _ _ w) as [lib w1]. simpl.
    destruct (truthy_opt (match_in_library item lib)).
    + by destruct (store_match _ _ _ _ _ w1).
    + by destruct (add_to_missing_items _ _ _ _ _ _ w1).
Qed.

Lemma store_match_mapping trakt_id emby_id item_type title w :
  _emby_id_mapping (store_match E trakt_id emby_id item_type title w).2 =
  if truthy_opt trakt_id
  then <[mapping_key item_type (default "" trakt_id) :=
           {| emby_id := emby_id; m_type := item_type; m_title := title;
              last_updated := clock E (ticks w) |}]> (_emby_id_mapping w)
  else _emby_id_mapping w.
Proof.
  unfold store_match, add_emby_id_mapping, bind, ret, modify, now.
  by destruct (truthy_opt trakt_id).
Qed.

(** C4, as amended: the mapping store after [process_item].  A record is
    written exactly when the entry is matched by the steps on the library
    (the stored mapping did not answer) and has a Trakt id; the record is
    under the entry's kind and Trakt id and holds the returned target id,
    the title and the time of the call.  On the fast path, without a Trakt
    id, and when nothing matches, the store is left as it is. *)
Theorem process_item_mapping_writes item access_token library_id collection_name w :
  _emby_id_mapping (process_item E item access_token library_id collection_name w).2 =
  match (process_item E item access_token library_id collection_name w).1 with
  | Some m =>
      if truthy_opt (trakt_id_of item) && negb (fast_path item w)
      then <[mapping_key (kind_of item) (default "" (trakt_id_of item)) :=
               {| emby_id := r_id m; m_type := kind_of item;
                  m_title := default "" (t_title (media_of item));
                  last_updated := clock E (ticks w) |}]> (_emby_id_mapping w)
      else _emby_id_mapping w
  | None => _emby_id_mapping w
  end.
Proof.
  rewrite process_item_run. cbv zeta.
  destruct (negb (has _ "imdb" || has _ "tmdb" || has _ "trakt")).
  { apply add_to_missing_items_mapping. }
  destruct (fast_path item w) eqn:Hfast.
  { simpl. by rewrite andb_false_r. }
  pose proof (get_emby_library_items_frame
                (if String.eqb (type item) "movie" then "Movie" else "Series")
                library_id false w) as (Hm & _ & _ & Ht).
  cbv zeta in Hm, Ht.
  destruct (get_emby_library_items _ _ _ _ w) as [lib w1]. simpl in *.
  destruct (truthy_opt (match_in_library item lib)); simpl.
  - rewrite store_match_mapping, Hm, Ht, andb_true_r. done.
  - by rewrite add_to_missing_items_mapping.
Qed.

End MappingWrites.

(** ** The registries *)

Section Registries.

Context (E : env).

Lemma keys_app l1 l2 : keys (l1 ++ l2) = keys l1 ++ keys l2.
Proof. apply omap_app. Qed.

Lemma keys_delete l i r : l !! i = Some r -> keys l ≡ₚ keys [r] ++ keys (delete i l).
Proof.
  intros H. rewrite <- keys_app. unfold keys. apply omap_Permutation.
  simpl. by apply delete_Permutation.
Qed.

Lemma keys_alter f i l : (forall r, key (f r) = key r) -> keys (alter f i l) = keys l.
Proof.
  intros Hf. revert i. unfold keys.
  induction l as [|r l IH]; intros [|i]; try done.
  - change (alter f 0 (r :: l)) with (f r :: l). simpl. by rewrite Hf.
  - change (alter f (S i) (r :: l)) with (r :: alter f i l). simpl. by rewrite IH.
Qed.

Lemma find_index_none {A} (p : A -> bool) l x :
  find_index p l = None -> x ∈ l -> p x = false.
Proof.
  induction l as [|y l IH]; simpl; [by intros _ ?%elem_of_nil|].
  destruct (p y) eqn:Hy; [done|].
  destruct (find_index p l); [done|]. intros _ [->|?]%elem_of_cons; auto.
Qed.

Lemma find_index_some {A} (p : A -> bool) l i :
  find_index p l = Some i -> exists x, l !! i = Some x /\ p x = true.
Proof.
  revert i. induction l as [|y l IH]; intros i; simpl; [done|].
  destruct (p y) eqn:Hy.
  - intros [= <-]. by exists y.
  - destruct (find_index p l) as [j|]; [|done]. intros [= <-]. by apply IH.
Qed.

(** An id that no record of the list answers to is not among its keys. *)
Lemma not_in_keys k l :
  (forall r, r ∈ l -> same_trakt (Some k) r = false) -> k ∉ keys l.
Proof.
  intros Hl [r [Hr Hk]]%list_elem_of_omap.
  specialize (Hl r Hr). unfold same_trakt in Hl. unfold key in Hk.
  destruct (truthy_opt (trakt_of r)); [|done]. simpl in Hl.
  by rewrite bool_decide_eq_true_2 in Hl.
Qed.

(** Moving a record from one list to the end of the other keeps the ids. *)
Lemma keys_move from to i r r' :
  from !! i = Some r -> key r' = key r ->
  keys (delete i from) ++ keys (to ++ [r']) ≡ₚ keys from ++ keys to.
Proof.
  intros Hi Hk. rewrite (keys_delete from i r Hi), keys_app.
  unfold keys at 3 5. simpl. rewrite Hk.
  destruct (key r); simpl; [|by rewrite app_nil_r].
  rewrite (Permutation_app_comm (keys to)). simpl.
  by rewrite Permutation_middle.
Qed.

Lemma indexed {A} (item_index : Z) (l : list A) r :
  (if valid_index item_index l then l !! Z.to_nat item_index else None) = Some r ->
  l !! Z.to_nat item_index = Some r.
Proof. by destruct (valid_index item_index l). Qed.

Lemma ignore_missing_item_ok item_index w :
  one_record_per_id w -> one_record_per_id (ignore_missing_item E item_index w).2.
Proof.
  unfold one_record_per_id, ignore_missing_item, bind, ret, gets, modify, now. simpl.
  destruct (if valid_index _ _ then _ else _) as [r|] eqn:Hr; simpl; [|done].
  intros H. apply indexed in Hr.
  by rewrite (keys_move _ _ _ r _ Hr).
Qed.

Lemma unignore_item_ok item_index w :
  one_record_per_id w -> one_record_per_id (unignore_item E item_index w).2.
Proof.
  unfold one_record_per_id, unignore_item, bind, ret, gets, modify, now. simpl.
  destruct (if valid_index _ _ then _ else _) as [r|] eqn:Hr; simpl; [|done].
  intros H. apply indexed in Hr.
  rewrite Permutation_app_comm. rewrite (keys_move _ _ _ r _ Hr); [|done].
  by rewrite Permutation_app_comm.
Qed.

Lemma ignore_loop_ok indices s f ts w :
  one_record_per_id w -> one_record_per_id (ignore_loop E indices s f ts w).2.
Proof.
  revert s f ts w. induction indices as [|index rest IH]; intros s f ts w H; simpl; [done|].
  unfold bind, gets, modify, now. simpl.
  destruct (if valid_index _ _ then _ else _) as [r|] eqn:Hr; simpl; [|by apply IH].
  apply IH. unfold one_record_per_id in *. simpl. apply indexed in Hr.
  by rewrite (keys_move _ _ _ r _ Hr).
Qed.

Lemma ignore_missing_items_ok item_indices w :
  one_record_per_id w -> one_record_per_id (ignore_missing_items E item_indices w).2.
Proof.
  intros H. unfold ignore_missing_items. destruct item_indices as [|i l]; [done|].
  unfold bind. pose proof (ignore_loop_ok (sorted_desc (i :: l)) 0 0 [] w H) as Hl.
  destruct (ignore_loop _ _ _ _ _ w) as [[[s f] ts] w']. simpl in *.
  by destruct (Nat.ltb 0 s).
Qed.

Lemma add_to_missing_items_ok item_data item_type collection_name library_id reason w :
  one_record_per_id w ->
  one_record_per_id
    (add_to_missing_items E item_data item_type collection_name library_id reason w).2.
Proof.
  unfold one_record_per_id, add_to_missing_items, bind, ret, gets, modify, now. simpl.
  intros H.
  destruct (find_index (same_trakt (t_ids item_data !! "trakt")) (_ignored_items w))
    as [i|] eqn:Hign; simpl.
  { by rewrite keys_alter. }
  destruct (truthy_opt (t_ids item_data !! "trakt")) eqn:Hid; simpl.
  - destruct (find_index (same_trakt (t_ids item_data !! "trakt")) (_missing_items w))
      as [i|] eqn:Hmis; simpl.
    { by rewrite keys_alter. }
    rewrite keys_app. unfold keys at 2. simpl. unfold key, trakt_of. simpl. rewrite Hid.
    destruct (t_ids item_data !! "trakt") as [k|] eqn:Hk; [|done]. simpl.
    rewrite <- app_assoc. simpl. rewrite <- Permutation_middle.
    apply NoDup_cons. split; [|done].
    rewrite elem_of_app. intros [Hin|Hin]; revert Hin; apply not_in_keys; intros r Hr.
    + by apply (find_index_none _ _ r Hmis).
    + by apply (find_index_none _ _ r Hign).
  - rewrite keys_app. unfold keys at 2. simpl. unfold key, trakt_of. simpl. rewrite Hid.
    simpl. by rewrite app_nil_r.
Qed.

Lemma run_ops_ok ops w : one_record_per_id w -> one_record_per_id (run_ops E ops w).
Proof.
  revert w. induction ops as [|op ops IH]; intros w H; [done|].
  simpl. apply IH. destruct op; simpl.
  - by apply add_to_missing_items_ok.
  - by apply ignore_missing_item_ok.
  - by apply ignore_missing_items_ok.
  - by apply unignore_item_ok.
Qed.

Lemma one_record_per_id_exclusive w : one_record_per_id w -> exclusive w.
Proof. unfold one_record_per_id, exclusive. intros (_ & H & _)%NoDup_app. exact H. Qed.

Lemma find_index_is_some {A} (p : A -> bool) l x :
  x ∈ l -> p x = true -> is_Some (find_index p l).
Proof.
  intros Hx Hp. destruct (find_index p l) eqn:Hf; [by eexists|].
  by rewrite (find_index_none p l x Hf Hx) in Hp.
Qed.

(** An entry whose id an ignored record has is not added: the first such
    record takes the collection, the unresolved registry stays as it is. *)
Lemma add_to_missing_items_suppressed item_data item_type collection_name library_id
    reason k w :
  t_ids item_data !! "trakt" = Some k -> k ∈ keys (_ignored_items w) ->
  exists i r,
    _ignored_items w !! i = Some r /\ key r = Some k /\
    add_to_missing_items E item_data item_type collection_name library_id reason w
    = (false, set_ignored (alter (merged_into collection_name library_id) i) w).
Proof.
  intros Hk [r [Hr Hkey]]%list_elem_of_omap.
  assert (same_trakt (Some k) r = true) as Hsame.
  { unfold key in Hkey. unfold same_trakt.
    destruct (truthy_opt (trakt_of r)); [|done]. simpl. by apply bool_decide_eq_true_2. }
  destruct (find_index_is_some _ _ r Hr Hsame) as [i Hi].
  destruct (find_index_some _ _ _ Hi) as (r' & Hr' & Hsame').
  exists i, r'. split; [done|]. split.
  { unfold same_trakt in Hsame'. unfold key.
    apply andb_prop in Hsame' as [-> Heq]. by apply bool_decide_eq_true_1 in Heq. }
  unfold add_to_missing_items, bind, ret, gets, modify. rewrite Hk, Hi. done.
Qed.

End Registries.

(** C6, the counterexample: two unresolved records have the same id, no
    record is ignored, so no id is in both registries; ignoring the first
    record leaves the second behind, and the id is in both. *)
Lemma ignore_one_of_two_breaks_exclusive :
  let w := set_missing (fun _ => [unresolved "Heat" "7" "Crime"; unresolved "Heat" "7" "Noir"])
             empty_world in
  let w' := run_ops (library_server []) [Ignore 0] w in
  exclusive w /\
  "7" ∈ keys (_missing_items w') /\ "7" ∈ keys (_ignored_items w').
Proof.
  intros w w'. split; [|split].
  - intros k _ Hk. vm_compute in Hk. by apply elem_of_nil in Hk.
  - vm_compute. apply list_elem_of_here.
  - vm_compute. apply list_elem_of_here.
Qed.

(** C6, as amended: from a state in which no id is known twice (not within
    a registry, not across the two), every state that [add_to_missing_items],
    [ignore_missing_item], [ignore_missing_items] and [unignore_item] lead to
    again knows no id twice, so no id is in both registries; and in such a
    state [add_to_missing_items] for an entry whose id an ignored record has
    returns [False], adds the collection to that record unless it is there,
    and leaves the unresolved registry as it is. *)
Theorem registries_stay_exclusive (E : env) (ops : list registry_op) (w : world) :
  one_record_per_id w ->
  let w' := run_ops E ops w in
  one_record_per_id w' /\ exclusive w' /\
  forall item_data item_type collection_name library_id reason k,
    t_ids item_data !! "trakt" = Some k -> k ∈ keys (_ignored_items w') ->
    exists i r,
      _ignored_items w' !! i = Some r /\ key r = Some k /\
      add_to_missing_items E item_data item_type collection_name library_id reason w'
      = (false, set_ignored (alter (merged_into collection_name library_id) i) w').
Proof.
  intros H w'. pose proof (run_ops_ok E ops w H) as H'.
  split; [done|]. split; [by apply one_record_per_id_exclusive|].
  intros. by apply add_to_missing_items_suppressed.
Qed.

(** The theorem from the empty registries: an entry is added, ignored and
    added again for another collection; it stays ignored, with both
    collections. *)
Lemma registries_stay_exclusive_witness :
  let E := library_server [] in
  let heat := {| t_title := Some "Heat"; t_year := Some 1995%Z; t_ids := {["trakt" := "7"]} |} in
  let ops := [AddUnresolved heat "movie" "Crime" (Some "7") "No usable IDs available";
              Ignore 0;
              AddUnresolved heat "movie" "Noir" (Some "7") "No usable IDs available"] in
  one_record_per_id empty_world /\
  exclusive (run_ops E ops empty_world) /\
  _missing_items (run_ops E ops empty_world) = [] /\
  (collections <$> _ignored_items (run_ops E ops empty_world))
  = [Some [{| name := "Crime"; c_library_id := Some "7" |};
           {| name := "Noir"; c_library_id := Some "7" |}]].
Proof.
  intros E heat ops.
  assert (one_record_per_id empty_world) as H by apply NoDup_nil_2.
  split; [exact H|]. split.
  - exact (proj1 (proj2 (registries_stay_exclusive E ops empty_world H))).
  - split; vm_compute; reflexivity.
Defined.

(** ** Moving records between the registries *)

Section Moves.

Context (E : env).

(** C7: with five unresolved records, [ignore_missing_items([0, 2, 4])]
    takes the indices as 4, 2, 0, so each removal leaves the indices still to
    come where they were: the records that were at 0, 2 and 4 end up in the
    ignored registry, each stamped with the time of its move, and the records
    that were at 1 and 3 are what is left of the unresolved registry. *)
Theorem ignore_missing_items_0_2_4 (r0 r1 r2 r3 r4 : missing_item) (w : world) :
  _missing_items w = [r0; r1; r2; r3; r4] ->
  sorted_desc [0; 2; 4]%Z = [4; 2; 0]%Z /\
  ((ignore_missing_items E [0; 2; 4]%Z w).1).1 = true /\
  _missing_items (ignore_missing_items E [0; 2; 4]%Z w).2 = [r1; r3] /\
  _ignored_items (ignore_missing_items E [0; 2; 4]%Z w).2
  = _ignored_items w ++
    [with_ignored_on (Some (clock E (ticks w))) r4;
     with_ignored_on (Some (clock E (S (ticks w)))) r2;
     with_ignored_on (Some (clock E (S (S (ticks w))))) r0].
Proof.
  intros H. split; [reflexivity|].
  destruct w as [mapping missing ignored cache log t]. simpl in *. subst missing.
  unfold ignore_missing_items. change (sorted_desc [0; 2; 4]%Z) with [4; 2; 0]%Z.
  cbv [ignore_loop bind ret gets modify now set_missing set_ignored _missing_items
       _ignored_items ticks _emby_id_mapping _library_cache http_log].
  simpl. repeat split. by rewrite <- !app_assoc.
Qed.

(** C8: ignoring the record at a valid index and then unignoring the record
    that this put at the end of the ignored registry gives the ignored
    registry back as it was, and puts the record at the end of the unresolved
    registry, without ['ignored_on'] and with ['last_checked'] set to the
    time of the unignoring; both calls report success. *)
Theorem unignore_after_ignore (item_index : Z) (r : missing_item) (w : world) :
  (0 <= item_index < Z.of_nat (length (_missing_items w)))%Z ->
  _missing_items w !! Z.to_nat item_index = Some r ->
  let w1 := (ignore_missing_item E item_index w).2 in
  let back := unignore_item E (Z.of_nat (length (_ignored_items w))) w1 in
  let r' := with_last_checked (clock E (S (ticks w))) (with_ignored_on None r) in
  ((ignore_missing_item E item_index w).1).1 = true /\
  (back.1).1 = true /\
  _missing_items back.2 = delete (Z.to_nat item_index) (_missing_items w) ++ [r'] /\
  _ignored_items back.2 = _ignored_items w /\
  ignored_on r' = None /\ last_checked r' = clock E (S (ticks w)).
Proof.
  intros Hi Hr.
  assert (valid_index item_index (_missing_items w) = true) as Hv.
  { unfold valid_index. apply andb_true_intro. split; [apply Z.leb_le|apply Z.ltb_lt]; lia. }
  unfold ignore_missing_item, bind, ret, gets, modify, now. simpl. rewrite Hv, Hr. simpl.
  unfold unignore_item, bind, ret, gets, modify, now. simpl.
  assert (valid_index (Z.of_nat (length (_ignored_items w)))
            (_ignored_items w ++ [with_ignored_on (Some (clock E (ticks w))) r]) = true) as Hv'.
  { unfold valid_index. rewrite length_app. simpl.
    apply andb_true_intro. split; [apply Z.leb_le|apply Z.ltb_lt]; lia. }
  rewrite Hv', Nat2Z.id, list_lookup_middle by done. simpl.
  rewrite <- (app_nil_r [with_ignored_on _ r]) at 1. simpl.
  replace (delete (length (_ignored_items w)) (_ignored_items w ++ [with_ignored_on (Some (clock E (ticks w))) r]))
    with (_ignored_items w ++ []) by (symmetry; apply delete_middle).
  by rewrite app_nil_r.
Qed.

End Moves.

(** ** Rechecking with a manual id, and empty collections *)

Section Recheck.

Context (E : env).

(** C9: [recheck_missing_item] with a manual id for which the request
    [/Items/<id>] does not answer with status 200 (another status, or no
    answer at all) reports a failure and makes that one request only: the
    registries and the mapping store are as before, so the record is still
    at its index with the reason it had. *)
Theorem recheck_missing_item_invalid_manual_id (item_index : Z) (r : missing_item)
    (manual_emby_id : string) (w : world) :
  (0 <= item_index < Z.of_nat (length (_missing_items w)))%Z ->
  _missing_items w !! Z.to_nat item_index = Some r ->
  truthy manual_emby_id = true ->
  (forall items json_id,
     emby E (http_log w) (GetItem manual_emby_id) <> Response 200 items json_id) ->
  let out := recheck_missing_item E item_index (Some manual_emby_id) w in
  (out.1).1 = false /\
  _missing_items out.2 = _missing_items w /\
  _missing_items out.2 !! Z.to_nat item_index = Some r /\
  _ignored_items out.2 = _ignored_items w /\
  _emby_id_mapping out.2 = _emby_id_mapping w /\
  http_log out.2 = http_log w ++ [GetItem manual_emby_id].
Proof.
  intros Hi Hr Hid Hfail.
  assert (valid_index item_index (_missing_items w) = true) as Hv.
  { unfold valid_index. apply andb_true_intro. split; [apply Z.leb_le|apply Z.ltb_lt]; lia. }
  unfold recheck_missing_item, bind, ret, gets, http. simpl. rewrite Hv, Hr, Hid. simpl.
  destruct (emby E (http_log w) (GetItem manual_emby_id)) as [e|code items json_id] eqn:Hresp;
    simpl; [done|].
  destruct (Z.eqb code 200) eqn:Hcode; simpl; [|done].
  apply Z.eqb_eq in Hcode. subst code. by destruct (Hfail items json_id).
Qed.

(** C10: with no target id, [create_emby_collection_with_movies] returns
    [None] at once: whatever the server holds, no request is sent to it, and
    the world is as before.  [create_collection_legacy_format] does the
    same. *)
Theorem create_emby_collection_with_movies_empty (collection_name : string) (w : world) :
  create_emby_collection_with_movies E collection_name [] w = (None, w) /\
  create_collection_legacy_format E collection_name [] w = (None, w).
Proof. split; reflexivity. Qed.

End Recheck.

(** The theorem at the records "a" to "e". *)
Lemma ignore_missing_items_0_2_4_witness :
  let E := library_server [] in
  let rec := fun t => unresolved t t "Crime" in
  let w := set_missing (fun _ => [rec "a"; rec "b"; rec "c"; rec "d"; rec "e"]) empty_world in
  _missing_items w = [rec "a"; rec "b"; rec "c"; rec "d"; rec "e"] /\
  _missing_items (ignore_missing_items E [0; 2; 4]%Z w).2 = [rec "b"; rec "d"] /\
  (title <$> _ignored_items (ignore_missing_items E [0; 2; 4]%Z w).2)
  = [Some "e"; Some "c"; Some "a"].
Proof.
  intros E rec w.
  destruct (ignore_missing_items_0_2_4 E (rec "a") (rec "b") (rec "c") (rec "d") (rec "e")
              w eq_refl) as (_ & _ & Hm & Hi).
  split; [reflexivity|]. split; [exact Hm|]. rewrite Hi. reflexivity.
Defined.

(** The theorem at the first of two records, with the clock that counts
    its readings. *)
Lemma unignore_after_ignore_witness :
  let E := library_server [] in
  let a := unresolved "Heat" "7" "Crime" in
  let b := unresolved "Ronin" "8" "Crime" in
  let w := set_missing (fun _ => [a; b]) empty_world in
  let w1 := (ignore_missing_item E 0 w).2 in
  let w2 := (unignore_item E 0 w1).2 in
  _missing_items w !! 0 = Some a /\
  _ignored_items w1 = [with_ignored_on (Some "0") a] /\
  _missing_items w2 = [b; with_last_checked "1" a] /\
  _ignored_items w2 = [].
Proof.
  intros E a b w w1 w2.
  assert (0 <= 0 < Z.of_nat (length (_missing_items w)))%Z as Hi by (simpl; lia).
  destruct (unignore_after_ignore E 0 a w Hi eq_refl) as (_ & _ & Hm & Hg & _).
  split; [reflexivity|]. split; [reflexivity|]. split; [exact Hm|exact Hg].
Defined.

(** The theorem at a server that answers [/Items/999] with status 404. *)
Lemma recheck_missing_item_invalid_manual_id_witness :
  let E := library_server [] in
  let a := unresolved "Heat" "7" "Crime" in
  let w := set_missing (fun _ => [a]) empty_world in
  emby E (http_log w) (GetItem "999") = Response 404 [] None /\
  recheck_missing_item E 0 (Some "999") w
  = ((false, "Invalid Emby ID: 404"),
     {| _emby_id_mapping := ∅; _missing_items := [a]; _ignored_items := [];
        _library_cache := ∅; http_log := [GetItem "999"]; ticks := 0 |}) /\
  reason <$> (_missing_items (recheck_missing_item E 0 (Some "999") w).2 !! 0)
  = Some "No matching IDs found in Emby library".
Proof.
  intros E a w.
  assert (0 <= 0 < Z.of_nat (length (_missing_items w)))%Z as Hi by (simpl; lia).
  assert (forall items json_id,
            emby E (http_log w) (GetItem "999") <> Response 200 items json_id) as Hfail
    by (intros items json_id H; discriminate H).
  destruct (recheck_missing_item_invalid_manual_id E 0 a "999" w Hi eq_refl eq_refl Hfail)
    as (_ & _ & Hr & _).
  split; [reflexivity|]. split; [vm_compute; reflexivity|].
  change (Z.to_nat 0) with 0%nat in Hr. by rewrite Hr.
Defined.

(** * Further properties *)

(** ** The library index *)

Section LibraryIndex.

Context (E : env).

Lemma get_emby_library_items_fetch item_type library_id force w items json_id :
  force = true \/ _library_cache w !! cache_key item_type library_id = None ->
  truthy (library_id_used E item_type library_id) = true ->
  emby E (http_log w) (GetLibraryItems item_type (library_id_used E item_type library_id))
  = Response 200 items json_id ->
  get_emby_library_items E item_type library_id force w
  = (items,
     {| _emby_id_mapping := _emby_id_mapping w; _missing_items := _missing_items w;
        _ignored_items := _ignored_items w;
        _library_cache := <[cache_key item_type library_id := items]> (_library_cache w);
        http_log := http_log w
                    ++ [GetLibraryItems item_type (library_id_used E item_type library_id)];
        ticks := ticks w |}).
Proof.
  intros Hmiss Hid Hresp.
  unfold get_emby_library_items, library_id_used, cache_key in *.
  unfold bind, gets, ret, modify, http.
  assert ((if force then None else _library_cache w !! (item_type +:+ "_" +:+ str_of_opt library_id))
          = None) as ->.
  { destruct force; [done|]. by destruct Hmiss. }
  rewrite Hid. simpl. rewrite Hresp. reflexivity.
Qed.

(** X1: a read of the library that the server answers with status 200
    (the cache had no entry, or the refresh was forced) returns the items of
    the answer after one request, and the next read of the same type and
    library returns the same items without a request: the world is left as
    the first read made it. *)
Theorem library_read_is_cached item_type library_id force w items json_id :
  force = true \/ _library_cache w !! cache_key item_type library_id = None ->
  truthy (library_id_used E item_type library_id) = true ->
  emby E (http_log w) (GetLibraryItems item_type (library_id_used E item_type library_id))
  = Response 200 items json_id ->
  let first := get_emby_library_items E item_type library_id force w in
  first.1 = items /\
  http_log first.2
  = http_log w ++ [GetLibraryItems item_type (library_id_used E item_type library_id)] /\
  get_emby_library_items E item_type library_id false first.2 = (items, first.2).
Proof.
  intros Hmiss Hid Hresp.
  rewrite (get_emby_library_items_fetch _ _ _ _ _ _ Hmiss Hid Hresp). cbv zeta.
  split; [done|]. split; [done|].
  unfold get_emby_library_items, bind, gets, ret. simpl.
  fold (cache_key item_type library_id). by rewrite lookup_insert_eq.
Qed.

(** X2: a read of the library that has to ask the server and gets another
    status than 200, or no answer, returns the empty list after that one
    request and leaves the cache as it is: nothing is stored for the key, an
    entry that was there stays. *)
Theorem library_failure_is_not_cached item_type library_id force w :
  force = true \/ _library_cache w !! cache_key item_type library_id = None ->
  truthy (library_id_used E item_type library_id) = true ->
  (forall items json_id,
     emby E (http_log w) (GetLibraryItems item_type (library_id_used E item_type library_id))
     <> Response 200 items json_id) ->
  get_emby_library_items E item_type library_id force w
  = ([], {| _emby_id_mapping := _emby_id_mapping w; _missing_items := _missing_items w;
            _ignored_items := _ignored_items w; _library_cache := _library_cache w;
            http_log := http_log w
                        ++ [GetLibraryItems item_type (library_id_used E item_type library_id)];
            ticks := ticks w |}).
Proof.
  intros Hmiss Hid Hresp.
  unfold get_emby_library_items, library_id_used, cache_key in *.
  unfold bind, gets, ret, modify, http.
  assert ((if force then None else _library_cache w !! (item_type +:+ "_" +:+ str_of_opt library_id))
          = None) as ->.
  { destruct force; [done|]. by destruct Hmiss. }
  rewrite Hid. simpl.
  destruct (emby E (http_log w) _) as [e|code items json_id] eqn:Hr; [done|].
  destruct (Z.eqb code 200) eqn:Hc; [|done].
  apply Z.eqb_eq in Hc. subst code. by destruct (Hresp items json_id).
Qed.

(** X3: without a library id, given or configured for the item type, a read
    that finds nothing in the cache returns the empty list and sends no
    request; the world is as before. *)
Theorem library_without_id_is_empty item_type library_id force w :
  force = true \/ _library_cache w !! cache_key item_type library_id = None ->
  truthy (library_id_used E item_type library_id) = false ->
  get_emby_library_items E item_type library_id force w = ([], w).
Proof.
  intros Hmiss Hid.
  unfold get_emby_library_items, library_id_used, cache_key in *.
  unfold bind, gets, ret.
  assert ((if force then None else _library_cache w !! (item_type +:+ "_" +:+ str_of_opt library_id))
          = None) as ->.
  { destruct force; [done|]. by destruct Hmiss. }
  by rewrite Hid.
Qed.

(** X4: [clear_library_cache] empties the cache for every type and
    library, so the next read that has a library id asks the server again,
    whatever was cached before. *)
Theorem clear_library_cache_forces_request item_type library_id w :
  truthy (library_id_used E item_type library_id) = true ->
  let cleared := (clear_library_cache w).2 in
  _library_cache cleared = ∅ /\
  http_log (get_emby_library_items E item_type library_id false cleared).2
  = http_log w ++ [GetLibraryItems item_type (library_id_used E item_type library_id)].
Proof.
  intros Hid. split; [done|].
  unfold clear_library_cache, modify. simpl.
  unfold get_emby_library_items, library_id_used in *.
  unfold bind, gets, ret, modify, http. simpl. rewrite lookup_empty, Hid. simpl.
  destruct (emby E (http_log w) _) as [e|code items json_id]; [done|].
  by destruct (Z.eqb code 200).
Qed.

End LibraryIndex.

(** ** The mapping store *)

Section MappingStore.

Context (E : env).

(** Under the two kinds, a key of the store names one kind and one id. *)
Lemma mapping_key_inj k1 t1 k2 t2 :
  is_kind k1 -> is_kind k2 -> mapping_key k1 t1 = mapping_key k2 t2 -> k1 = k2 /\ t1 = t2.
Proof.
  unfold mapping_key. intros [->| ->] [->| ->] H; simpl in H; try discriminate H.
  - split; [done|]. by injection H.
  - split; [done|]. by injection H.
Qed.

(** X5: what [add_emby_id_mapping] stores for a kind and a Trakt id is
    what [get_emby_id_from_mapping] returns for them afterwards, whatever was
    stored before (a later write replaces an earlier one), and the answer for
    every other pair of a kind and an id is as before. *)
Theorem mapping_store_round_trip trakt_id emby_id item_type title w kind' trakt_id' :
  is_kind item_type -> is_kind kind' ->
  (kind', trakt_id') <> (item_type, trakt_id) ->
  let w' := (add_emby_id_mapping E trakt_id emby_id item_type title w).2 in
  (get_emby_id_from_mapping item_type trakt_id w').1 = Some emby_id /\
  (get_emby_id_from_mapping kind' trakt_id' w').1
  = (get_emby_id_from_mapping kind' trakt_id' w).1 /\
  (forall emby_id2 title2,
     (get_emby_id_from_mapping item_type trakt_id
        (add_emby_id_mapping E trakt_id emby_id2 item_type title2 w').2).1 = Some emby_id2).
Proof.
  intros Hk Hk' Hne.
  unfold add_emby_id_mapping, get_emby_id_from_mapping, bind, ret, gets, modify, now. simpl.
  split; [by rewrite lookup_insert_eq|]. split.
  - rewrite lookup_insert_ne; [done|].
    intros Heq. apply mapping_key_inj in Heq as [-> ->]; done.
  - intros. by rewrite lookup_insert_eq.
Qed.

End MappingStore.

(** The theorem at a movie and a show that have the same Trakt id. *)
Lemma mapping_store_round_trip_witness :
  let E := library_server [] in
  let w' := (add_emby_id_mapping E "1" "10" "movie" "Heat" empty_world).2 in
  (get_emby_id_from_mapping "movie" "1" w').1 = Some "10" /\
  (get_emby_id_from_mapping "show" "1" w').1 = None.
Proof.
  intros E w'.
  assert (is_kind "movie") as Hm by (by left).
  assert (is_kind "show") as Hs by (by right).
  assert (("show", "1") <> ("movie", "1")) as Hne by discriminate.
  destruct (mapping_store_round_trip E "1" "10" "movie" "Heat" empty_world "show" "1" Hm Hs Hne)
    as (H1 & H2 & _).
  split; [exact H1|]. subst w'. rewrite H2. reflexivity.
Defined.

(** The theorem at a library of one film, read without a library id: the
    configured one is used. *)
Lemma library_read_is_cached_witness :
  let heat := {| Id := "10"; Name := "Heat"; ProductionYear := Some 1995%Z;
                 ProviderIds := {["Imdb" := "tt0113277"]}; Path := "" |} in
  let E := library_server [heat] in
  let first := get_emby_library_items E "Movie" None false empty_world in
  library_id_used E "Movie" None = "1" /\
  first.1 = [heat] /\
  http_log first.2 = [GetLibraryItems "Movie" "1"] /\
  get_emby_library_items E "Movie" None false first.2 = ([heat], first.2).
Proof.
  intros heat E first. split; [reflexivity|].
  exact (library_read_is_cached E "Movie" None false empty_world [heat] None
           (or_intror eq_refl) eq_refl eq_refl).
Defined.

(** The theorem at a server that has no answer for a forced refresh while
    the cache holds an entry. *)
Lemma library_failure_is_not_cached_witness :
  let E := {| EMBY_MOVIES_LIBRARY_ID := "1"; EMBY_TV_LIBRARY_ID := "2";
              emby := fun _ _ => Raised "timeout"; clock := fun _ => "" |} in
  let w := set_cache (insert "Series_2" []) empty_world in
  (get_emby_library_items E "Series" (Some "2") true w).1 = [] /\
  _library_cache (get_emby_library_items E "Series" (Some "2") true w).2
  = _library_cache w.
Proof.
  intros E w.
  assert (forall items json_id,
            emby E (http_log w) (GetLibraryItems "Series" (library_id_used E "Series" (Some "2")))
            <> Response 200 items json_id) as Hfail
    by (intros items json_id H; discriminate H).
  rewrite (library_failure_is_not_cached E "Series" (Some "2") true w
             (or_introl eq_refl) eq_refl Hfail).
  split; reflexivity.
Defined.

(** The theorem at an item type that has no configured library. *)
Lemma library_without_id_is_empty_witness :
  get_emby_library_items (library_server []) "BoxSet" None false empty_world
  = ([], empty_world).
Proof.
  exact (library_without_id_is_empty (library_server []) "BoxSet" None false empty_world
           (or_intror eq_refl) eq_refl).
Defined.

(** The theorem at a cache that holds the films of library 7. *)
Lemma clear_library_cache_forces_request_witness :
  let E := library_server [] in
  let w := set_cache (insert "Movie_7" []) empty_world in
  (get_emby_library_items E "Movie" (Some "7") false w).2 = w /\
  http_log (get_emby_library_items E "Movie" (Some "7") false (clear_library_cache w).2).2
  = [GetLibraryItems "Movie" "7"].
Proof.
  intros E w. split; [reflexivity|].
  exact (proj2 (clear_library_cache_forces_request E "Movie" (Some "7") w eq_refl)).
Defined.

(** ** Resolution of an entry *)

Section Entries.

Context (E : env).

Lemma find_index_all_false {A} (p : A -> bool) l :
  (forall x, p x = false) -> find_index p l = None.
Proof.
  intros Hp. induction l as [|x l IH]; [done|]. simpl. by rewrite Hp, IH.
Qed.

Lemma same_trakt_falsy trakt_id r : truthy_opt trakt_id = false -> same_trakt trakt_id r = false.
Proof.
  intros Hid. unfold same_trakt.
  destruct (truthy_opt (trakt_of r)) eqn:Hr; [|done]. simpl.
  apply bool_decide_eq_false_2. intros Heq. by rewrite Heq, Hid in Hr.
Qed.

(** An entry without a Trakt id is always appended to the unresolved
    registry. *)
Lemma add_to_missing_items_without_id item_data item_type collection_name library_id
    reason w :
  truthy_opt (t_ids item_data !! "trakt") = false ->
  add_to_missing_items E item_data item_type collection_name library_id reason w
  = (true,
     {| _emby_id_mapping := _emby_id_mapping w;
        _missing_items := _missing_items w
          ++ [new_record item_data item_type collection_name library_id reason
                (clock E (ticks w))];
        _ignored_items := _ignored_items w; _library_cache := _library_cache w;
        http_log := http_log w; ticks := S (ticks w) |}).
Proof.
  intros Hid. unfold add_to_missing_items, bind, ret, gets, modify, now.
  rewrite (find_index_all_false (same_trakt (t_ids item_data !! "trakt")) (_ignored_items w))
    by (intros; by apply same_trakt_falsy).
  by rewrite Hid.
Qed.

(** X6: an entry that has no IMDB, no TMDB and no Trakt id (it may have a
    TVDB id) is not looked for: [process_item] returns [None] without a
    request and without reading the mapping store, and appends a record with
    the reason "No usable IDs available" to the unresolved registry, whatever
    the registries hold. *)
Theorem process_item_without_usable_ids item access_token library_id collection_name w :
  has (t_ids (media_of item)) "imdb" = false ->
  has (t_ids (media_of item)) "tmdb" = false ->
  has (t_ids (media_of item)) "trakt" = false ->
  process_item E item access_token library_id collection_name w
  = (None,
     {| _emby_id_mapping := _emby_id_mapping w;
        _missing_items := _missing_items w
          ++ [new_record (media_of item) (type item) collection_name library_id
                "No usable IDs available" (clock E (ticks w))];
        _ignored_items := _ignored_items w; _library_cache := _library_cache w;
        http_log := http_log w; ticks := S (ticks w) |}).
Proof.
  intros H1 H2 H3. unfold process_item. rewrite H1, H2, H3. simpl.
  unfold bind, ret. rewrite add_to_missing_items_without_id; [done|].
  unfold has in H3. by destruct (t_ids (media_of item) !! "trakt").
Qed.

Lemma store_match_registries trakt_id emby_id item_type title w :
  _missing_items (store_match E trakt_id emby_id item_type title w).2 = _missing_items w /\
  _ignored_items (store_match E trakt_id emby_id item_type title w).2 = _ignored_items w.
Proof.
  unfold store_match, add_emby_id_mapping, bind, ret, modify, now.
  by destruct (truthy_opt trakt_id).
Qed.

(** X7: when [process_item] returns a match, the target id in it is not
    empty, its type is the type of the entry, and both registries are as
    they were: an entry is recorded as unresolved only when [None] is
    returned. *)
Theorem process_item_match_leaves_registries item access_token library_id collection_name
    w m :
  (process_item E item access_token library_id collection_name w).1 = Some m ->
  truthy (r_id m) = true /\ r_type m = type item /\
  _missing_items (process_item E item access_token library_id collection_name w).2
  = _missing_items w /\
  _ignored_items (process_item E item access_token library_id collection_name w).2
  = _ignored_items w.
Proof.
  rewrite process_item_run. cbv zeta.
  destruct (negb (has _ "imdb" || has _ "tmdb" || has _ "trakt")); [done|].
  destruct (fast_path item w) eqn:Hfast.
  { simpl. intros [= <-]. simpl. unfold fast_path in Hfast.
    apply andb_prop in Hfast as [_ Hfast].
    by destruct (emby_id <$> stored_record item w). }
  pose proof (get_emby_library_items_frame E
                (if String.eqb (type item) "movie" then "Movie" else "Series")
                library_id false w) as (_ & Hm & Hi & _).
  cbv zeta in Hm, Hi.
  destruct (get_emby_library_items _ _ _ _ w) as [lib w1]. simpl in *.
  destruct (truthy_opt (match_in_library item lib)) eqn:Hmatch; [|done].
  simpl. intros [= <-]. simpl.
  destruct (store_match_registries (trakt_id_of item)
              (default "" (match_in_library item lib)) (kind_of item)
              (default "" (t_title (media_of item))) w1) as [-> ->].
  by destruct (match_in_library item lib).
Qed.

(** X8: an entry with a Trakt id that [process_item] has matched is
    answered from the mapping store the next time: the second call returns
    the same match, sends no request and leaves the world as the first call
    made it. *)
Theorem process_item_again item access_token library_id collection_name w m :
  truthy_opt (trakt_id_of item) = true ->
  (process_item E item access_token library_id collection_name w).1 = Some m ->
  process_item E item access_token library_id collection_name
    (process_item E item access_token library_id collection_name w).2
  = (Some m, (process_item E item access_token library_id collection_name w).2).
Proof.
  intros Hid.
  assert (negb (has (t_ids (media_of item)) "imdb" || has (t_ids (media_of item)) "tmdb"
                || has (t_ids (media_of item)) "trakt") = false) as Hguard.
  { unfold trakt_id_of, stripped_id in Hid.
    destruct (has (t_ids (media_of item)) "trakt"); [|done]. by rewrite !orb_true_r. }
  rewrite (process_item_run E item access_token library_id collection_name w). cbv zeta.
  rewrite Hguard.
  destruct (fast_path item w) eqn:Hfast.
  { simpl. intros [= <-]. rewrite process_item_run. cbv zeta. by rewrite Hguard, Hfast. }
  destruct (get_emby_library_items _ _ _ _ w) as [lib w1]. simpl.
  destruct (truthy_opt (match_in_library item lib)) eqn:Hmatch; [|done].
  simpl. intros [= <-].
  rewrite process_item_run. cbv zeta. rewrite Hguard.
  assert (stored_record item
            (store_match E (trakt_id_of item) (default "" (match_in_library item lib))
               (kind_of item) (default "" (t_title (media_of item))) w1).2
          = Some {| emby_id := default "" (match_in_library item lib);
                    m_type := kind_of item;
                    m_title := default "" (t_title (media_of item));
                    last_updated := clock E (ticks w1) |}) as Hrec.
  { unfold stored_record. rewrite store_match_mapping, Hid. by rewrite lookup_insert_eq. }
  unfold fast_path. rewrite Hid, Hrec. simpl.
  destruct (match_in_library item lib) as [e|]; [|done]. simpl in *. by rewrite Hmatch.
Qed.

(** *** The IMDB table of [process_item] *)

Lemma add_imdb_keys_lookup p lib_id d k :
  add_imdb_keys p lib_id d !! k
  = if bool_decide (k ∈ imdb_spellings p) then Some lib_id else d !! k.
Proof.
  unfold add_imdb_keys, imdb_spellings.
  destruct (truthy p); [|by rewrite bool_decide_eq_false_2 by apply not_elem_of_nil].
  destruct (negb (str_startswith "tt" p) && Nat.ltb 5 (String.length p)).
  - case_bool_decide as Hk.
    + apply elem_of_cons in Hk as [->|Hk].
      * destruct (decide ("tt" +:+ p = p)) as [Heq|Hne].
        -- by rewrite Heq, lookup_insert_eq.
        -- by rewrite lookup_insert_ne, lookup_insert_eq.
      * apply list_elem_of_singleton in Hk as ->. by rewrite lookup_insert_eq.
    + rewrite !lookup_insert_ne; [done| |]; intros <-; apply Hk; set_solver.
  - destruct (str_startswith "tt" p).
    + case_bool_decide as Hk.
      * apply elem_of_cons in Hk as [->|Hk].
        -- destruct (decide (str_drop 2 p = p)) as [Heq|Hne].
           ++ by rewrite Heq, lookup_insert_eq.
           ++ by rewrite lookup_insert_ne, lookup_insert_eq.
        -- apply list_elem_of_singleton in Hk as ->. by rewrite lookup_insert_eq.
      * rewrite !lookup_insert_ne; [done| |]; intros <-; apply Hk; set_solver.
    + case_bool_decide as Hk.
      * apply list_elem_of_singleton in Hk as ->. by rewrite lookup_insert_eq.
      * rewrite lookup_insert_ne; [done|]. intros <-. apply Hk. set_solver.
Qed.

(** The table holds, under a spelling, the target id of the last item of
    the library that has the spelling. *)
Lemma imdb_lookup_last lib k :
  imdb_lookup (build_lookups lib) !! k
  = Id <$> List.find
             (fun it => bool_decide (k ∈ imdb_spellings (provider_id "Imdb" it))) (rev lib).
Proof.
  induction lib as [|x lib IH] using rev_ind; [done|].
  rewrite build_lookups_snoc, rev_app_distr. simpl.
  rewrite add_imdb_keys_lookup. by case_bool_decide.
Qed.

(** X9: in [process_item] the entry's IMDB id is looked up with [tt]
    before it, and an item answers to its own IMDB id as it is stored, with
    [tt] added (when it is longer than five characters) and with [tt] taken
    off; when items of the library answer, the match is the last of them,
    whatever the other ids, names and years are. *)
Theorem process_item_imdb_spellings item lib imdb_id a :
  stripped_id (t_ids (media_of item)) "imdb" = Some imdb_id ->
  truthy imdb_id = true ->
  List.find (fun it => bool_decide (with_tt imdb_id ∈ imdb_spellings (provider_id "Imdb" it)))
            (rev lib) = Some a ->
  id_match_in_library item lib = Some (Id a) /\
  (truthy (Id a) = true -> match_in_library item lib = Some (Id a)).
Proof.
  intros Himdb Hi Ha.
  assert (id_match_in_library item lib = Some (Id a)) as Hchain.
  { unfold id_match_in_library. rewrite Himdb. simpl. rewrite Hi. simpl.
    unfold id_chain, probe, with_tt in *.
    destruct (str_startswith "tt" imdb_id); simpl; rewrite ?Hi.
    - by rewrite imdb_lookup_last, Ha.
    - by rewrite imdb_lookup_last, Ha. }
  split; [done|]. intros Hid.
  rewrite match_in_library_id_first; rewrite Hchain; done.
Qed.

End Entries.

(** The theorem at a show that has a TVDB id only. *)
Lemma process_item_without_usable_ids_witness :
  let dark := {| type := "show"; movie := None;
                 show := Some {| t_title := Some "Dark"; t_year := Some 2017%Z;
                                 t_ids := {["tvdb" := "334824"]} |} |} in
  let out := process_item (library_server []) dark "" (Some "3") "Series" empty_world in
  out.1 = None /\ http_log out.2 = [] /\
  (reason <$> _missing_items out.2) = ["No usable IDs available"].
Proof.
  intros dark out. subst out.
  rewrite (process_item_without_usable_ids (library_server []) dark "" (Some "3") "Series"
             empty_world eq_refl eq_refl eq_refl).
  repeat split.
Defined.

(** The theorem at an entry that its IMDB id matches. *)
Lemma process_item_match_leaves_registries_witness :
  let E := library_server [heat_item] in
  let entry := heat_entry {["imdb" := "tt0113277"]} in
  let w := set_missing (fun _ => [unresolved "Ronin" "8" "Crime"]) empty_world in
  (process_item E entry "" (Some "7") "Crime" w).1
  = Some {| r_id := "10"; r_type := "movie" |} /\
  _missing_items (process_item E entry "" (Some "7") "Crime" w).2 = _missing_items w.
Proof.
  intros E entry w.
  assert ((process_item E entry "" (Some "7") "Crime" w).1
          = Some {| r_id := "10"; r_type := "movie" |}) as H by (vm_compute; reflexivity).
  split; [exact H|].
  exact (proj1 (proj2 (proj2
           (process_item_match_leaves_registries E entry "" (Some "7") "Crime" w _ H)))).
Defined.

(** The theorem at an entry with a Trakt id that its TMDB id matches. *)
Lemma process_item_again_witness :
  let E := library_server [heat_item] in
  let entry := heat_entry {["tmdb" := "949"; "trakt" := "1"]} in
  let first := process_item E entry "" (Some "7") "Crime" empty_world in
  first.1 = Some {| r_id := "10"; r_type := "movie" |} /\
  http_log first.2 = [GetLibraryItems "Movie" "7"] /\
  process_item E entry "" (Some "7") "Crime" first.2
  = (Some {| r_id := "10"; r_type := "movie" |}, first.2).
Proof.
  intros E entry first.
  assert (first.1 = Some {| r_id := "10"; r_type := "movie" |}) as H
    by (vm_compute; reflexivity).
  split; [exact H|]. split; [vm_compute; reflexivity|].
  exact (process_item_again E entry "" (Some "7") "Crime" empty_world _ eq_refl H).
Defined.

(** The theorem at the film whose IMDB id the library stores without
    [tt]. *)
Lemma process_item_imdb_spellings_witness :
  let entry := heat_entry {["imdb" := "tt0113277"]} in
  imdb_spellings (provider_id "Imdb" heat_item) = ["0113277"; "tt0113277"] /\
  match_in_library entry [heat_item] = Some "10".
Proof.
  intros entry. split; [vm_compute; reflexivity|].
  exact (proj2 (process_item_imdb_spellings entry [heat_item] "tt0113277" heat_item
                  eq_refl eq_refl eq_refl) eq_refl).
Defined.

(** The lemma [match_in_library_tmdb_before_name] at a library in which
    another film has the entry's name and year. *)
Lemma match_in_library_tmdb_before_name_witness :
  let other := {| Id := "20"; Name := "Heat"; ProductionYear := Some 1995%Z;
                  ProviderIds := ∅; Path := "" |} in
  let a := {| Id := "10"; Name := "Heat (Director's Cut)"; ProductionYear := Some 1996%Z;
              ProviderIds := {["Tmdb" := "949"]}; Path := "" |} in
  let entry := heat_entry {["tmdb" := " 949 "]} in
  name_and_year_match "Heat" (Some 1995%Z) [other; a] = Some other /\
  match_in_library entry [other; a] = Some "10".
Proof.
  intros other a entry. split; [vm_compute; reflexivity|].
  exact (match_in_library_tmdb_before_name entry [other; a] "949" a
           eq_refl eq_refl eq_refl eq_refl eq_refl).
Defined.

(** The lemma [search_in_emby_fast_path] at a store with one record. *)
Lemma search_in_emby_fast_path_witness :
  let w := set_mapping (insert "show_42"
             {| emby_id := "31"; m_type := "show"; m_title := "Dark"; last_updated := "t" |})
             empty_world in
  search_in_emby (library_server []) "show" "Dark" (Some 2017%Z) {["trakt" := IdNumber 42]}
    (Some "3") w = (Some "31", w).
Proof.
  intros w.
  exact (search_in_emby_fast_path (library_server []) "show" "Dark" (Some 2017%Z)
           {["trakt" := IdNumber 42]} (Some "3") w
           {| emby_id := "31"; m_type := "show"; m_title := "Dark"; last_updated := "t" |}
           eq_refl eq_refl eq_refl).
Defined.

(** ** Adding to the unresolved registry *)

Section Adding.

Context (E : env).

Lemma find_index_none_intro {A} (p : A -> bool) l :
  (forall x, x ∈ l -> p x = false) -> find_index p l = None.
Proof.
  induction l as [|x l IH]; intros Hp; [done|]. simpl.
  rewrite (Hp x) by apply list_elem_of_here.
  rewrite IH; [done|]. intros y Hy. apply Hp. by apply list_elem_of_further.
Qed.

Lemma find_index_snoc {A} (p : A -> bool) l x :
  find_index p l = None -> p x = true -> find_index p (l ++ [x]) = Some (length l).
Proof.
  induction l as [|y l IH]; simpl; intros Hl Hx; [by rewrite Hx|].
  destruct (p y); [done|].
  destruct (find_index p l); [done|]. by rewrite IH.
Qed.

(** No record of the list answers to an id that is not among its keys. *)
Lemma find_index_unknown k l : k ∉ keys l -> find_index (same_trakt (Some k)) l = None.
Proof.
  intros Hk. apply find_index_none_intro. intros r Hr.
  destruct (same_trakt (Some k) r) eqn:Hsame; [|done].
  exfalso. apply Hk. apply list_elem_of_omap. exists r. split; [done|].
  unfold same_trakt in Hsame. apply andb_prop in Hsame as [Ht Heq].
  apply bool_decide_eq_true_1 in Heq. unfold key. by rewrite Ht.
Qed.

Lemma alter_snoc {A} (f : A -> A) (l : list A) x :
  alter f (length l) (l ++ [x]) = l ++ [f x].
Proof. induction l as [|y l IH]; [done|]. simpl. by f_equal. Qed.

(** X10: an entry with a Trakt id that neither registry knows is appended
    to the unresolved registry; added once more, for the same or another
    collection, it still has one record: the collection is put behind the
    first unless it has its name, the time of the last check is set anew,
    and the reason and the rest of the record stay those of the first
    call. *)
Theorem add_to_missing_items_twice item_data item_type c1 c2 lib1 lib2 reason1 reason2 k w :
  t_ids item_data !! "trakt" = Some k -> truthy k = true ->
  k ∉ keys (_missing_items w) -> k ∉ keys (_ignored_items w) ->
  let w1 := (add_to_missing_items E item_data item_type c1 lib1 reason1 w).2 in
  let w2 := (add_to_missing_items E item_data item_type c2 lib2 reason2 w1).2 in
  let first := new_record item_data item_type c1 lib1 reason1 (clock E (ticks w)) in
  _missing_items w1 = _missing_items w ++ [first] /\
  _missing_items w2
  = _missing_items w
    ++ [with_last_checked (clock E (S (S (ticks w))))
          (with_collections
             (merge_collection c2 lib2 [{| name := c1; c_library_id := lib1 |}]) first)] /\
  _ignored_items w2 = _ignored_items w.
Proof.
  intros Hk Ht Hm Hi.
  assert (add_to_missing_items E item_data item_type c1 lib1 reason1 w
          = (true, {| _emby_id_mapping := _emby_id_mapping w;
                      _missing_items := _missing_items w
                        ++ [new_record item_data item_type c1 lib1 reason1 (clock E (ticks w))];
                      _ignored_items := _ignored_items w;
                      _library_cache := _library_cache w;
                      http_log := http_log w; ticks := S (ticks w) |})) as H1.
  { unfold add_to_missing_items, bind, ret, gets, modify, now.
    rewrite Hk, (find_index_unknown k _ Hi). simpl. rewrite Ht.
    by rewrite (find_index_unknown k _ Hm). }
  rewrite H1. cbv zeta. simpl. split; [done|].
  unfold add_to_missing_items, bind, ret, gets, modify, now. simpl.
  rewrite Hk, (find_index_unknown k _ Hi). simpl. rewrite Ht.
  rewrite (find_index_snoc _ _ _ (find_index_unknown k _ Hm)).
  2:{ unfold same_trakt, new_record, trakt_of. simpl. rewrite Hk. simpl. rewrite Ht.
      by apply bool_decide_eq_true_2. }
  simpl. by rewrite alter_snoc.
Qed.

(** X11: an entry without a Trakt id has no identity in the registry:
    every call of [add_to_missing_items] for it appends one more record, so
    after [n] calls the unresolved registry is [n] records longer, and the
    ignored registry is never looked up with success. *)
Theorem add_to_missing_items_without_id_repeats item_data item_type collection_name
    library_id reason (n : nat) w :
  truthy_opt (t_ids item_data !! "trakt") = false ->
  let again := fun w =>
    (add_to_missing_items E item_data item_type collection_name library_id reason w).2 in
  length (_missing_items (Nat.iter n again w)) = length (_missing_items w) + n /\
  _ignored_items (Nat.iter n again w) = _ignored_items w.
Proof.
  intros Hid again. induction n as [|n [IHm IHi]]; simpl; [by rewrite Nat.add_0_r|].
  unfold again at 1 3.
  rewrite (add_to_missing_items_without_id E _ _ _ _ _ _ Hid). simpl.
  rewrite length_app, IHm. simpl. split; [lia|done].
Qed.

End Adding.

(** The theorem at a film listed in two collections. *)
Lemma add_to_missing_items_twice_witness :
  let E := library_server [] in
  let heat := {| t_title := Some "Heat"; t_year := Some 1995%Z; t_ids := {["trakt" := "7"]} |} in
  let w1 := (add_to_missing_items E heat "movie" "Crime" (Some "7") "first" empty_world).2 in
  let w2 := (add_to_missing_items E heat "movie" "Noir" (Some "7") "second" w1).2 in
  (collections <$> _missing_items w2)
  = [Some [{| name := "Crime"; c_library_id := Some "7" |};
           {| name := "Noir"; c_library_id := Some "7" |}]] /\
  (reason <$> _missing_items w2) = ["first"].
Proof.
  intros E heat w1 w2.
  destruct (add_to_missing_items_twice E heat "movie" "Crime" "Noir" (Some "7") (Some "7")
              "first" "second" "7" empty_world eq_refl eq_refl
              (not_elem_of_nil "7") (not_elem_of_nil "7")) as (_ & H2 & _).
  subst w2 w1. rewrite H2. split; reflexivity.
Defined.

(** The theorem at three calls for a film without ids. *)
Lemma add_to_missing_items_without_id_repeats_witness :
  let E := library_server [] in
  let film := {| t_title := Some "Heat"; t_year := Some 1995%Z; t_ids := ∅ |} in
  let again := fun w =>
    (add_to_missing_items E film "movie" "Crime" (Some "7") "No usable IDs available" w).2 in
  length (_missing_items (again (again (again empty_world)))) = 3.
Proof.
  intros E film again.
  exact (proj1 (add_to_missing_items_without_id_repeats E film "movie" "Crime" (Some "7")
                  "No usable IDs available" 3 empty_world eq_refl)).
Defined.

(** ** Ignoring several records *)

Section BulkIgnore.

Context (E : env).

Lemma elem_of_insert_desc i j l : j ∈ insert_desc i l <-> j = i \/ j ∈ l.
Proof.
  induction l as [|x l IH]; simpl.
  - rewrite list_elem_of_singleton, elem_of_nil. tauto.
  - destruct (Z.leb x i); [by rewrite elem_of_cons|]. rewrite !elem_of_cons, IH. tauto.
Qed.

Lemma elem_of_sorted_desc j l : j ∈ sorted_desc l <-> j ∈ l.
Proof.
  induction l as [|x l IH]; simpl; [done|].
  rewrite elem_of_insert_desc, IH, elem_of_cons. tauto.
Qed.

Lemma descending_insert_desc i l : i ∉ l -> descending l -> descending (insert_desc i l).
Proof.
  induction l as [|x l IH]; simpl; intros Hi Hl; [done|].
  destruct Hl as [Hx Hl].
  apply not_elem_of_cons in Hi as [Hne Hi].
  destruct (Z.leb x i) eqn:Hle.
  - apply Z.leb_le in Hle. simpl. split; [|done].
    constructor; [lia|]. eapply Forall_impl; [exact Hx|]. simpl. lia.
  - apply Z.leb_gt in Hle. simpl. split; [|by apply IH].
    apply Forall_forall. intros j Hj. apply elem_of_insert_desc in Hj as [->|Hj]; [done|].
    by apply (proj1 (Forall_forall _ _) Hx).
Qed.

Lemma descending_sorted_desc l : NoDup l -> descending (sorted_desc l).
Proof.
  induction 1 as [|x l Hx Hl IH]; simpl; [done|].
  apply descending_insert_desc; [|done]. by rewrite elem_of_sorted_desc.
Qed.

Lemma existsb_eqb_elem_of (i : Z) l : existsb (Z.eqb i) l = bool_decide (i ∈ l).
Proof.
  induction l as [|x l IH].
  { symmetry. apply bool_decide_eq_false_2, not_elem_of_nil. }
  cbn [existsb]. rewrite IH. destruct (Z.eqb i x) eqn:Hx; cbn [orb].
  - apply Z.eqb_eq in Hx. subst. symmetry. apply bool_decide_eq_true_2, elem_of_cons. by left.
  - apply Z.eqb_neq in Hx. apply bool_decide_ext. rewrite elem_of_cons. tauto.
Qed.

(** Which positions are dropped depends on the set of indices only. *)
Lemma drop_positions_ext {A} from is1 is2 (l : list A) :
  (forall j, j ∈ is1 <-> j ∈ is2) -> drop_positions from is1 l = drop_positions from is2 l.
Proof.
  intros H. revert from. induction l as [|x l IH]; intros from; simpl; [done|].
  rewrite !existsb_eqb_elem_of, (bool_decide_ext _ _ (H from)). by rewrite !IH.
Qed.

Lemma drop_positions_app {A} from ixs (l1 l2 : list A) :
  drop_positions from ixs (l1 ++ l2)
  = drop_positions from ixs l1 ++ drop_positions (from + Z.of_nat (length l1)) ixs l2.
Proof.
  revert from. induction l1 as [|x l1 IH]; intros from; simpl.
  - by rewrite Z.add_0_r.
  - rewrite IH. replace (from + 1 + Z.of_nat (length l1))%Z
      with (from + Z.pos (Pos.of_succ_nat (length l1)))%Z by lia.
    by destruct (existsb (Z.eqb from) ixs).
Qed.

(** Indices below the first position drop nothing. *)
Lemma drop_positions_below {A} from ixs (l : list A) :
  Forall (fun j => (j < from)%Z) ixs -> drop_positions from ixs l = l.
Proof.
  revert from. induction l as [|x l IH]; intros from H; simpl; [done|].
  rewrite existsb_eqb_elem_of, bool_decide_eq_false_2.
  - rewrite IH; [done|]. eapply Forall_impl; [exact H|]. simpl. lia.
  - intros Hin. apply (proj1 (Forall_forall _ _) H) in Hin. lia.
Qed.

(** An index that is no position of the list drops nothing. *)
Lemma drop_positions_outside {A} from i ixs (l : list A) :
  (i < from \/ from + Z.of_nat (length l) <= i)%Z ->
  drop_positions from (i :: ixs) l = drop_positions from ixs l.
Proof.
  revert from. induction l as [|x l IH]; intros from H; simpl; [done|].
  simpl in H. assert (Z.eqb from i = false) as -> by (apply Z.eqb_neq; lia). simpl.
  rewrite IH by lia. done.
Qed.

Lemma valid_index_spec {A} i (l : list A) :
  valid_index i l = true <-> (0 <= i < Z.of_nat (length l))%Z.
Proof. unfold valid_index. rewrite andb_true_iff, Z.leb_le, Z.ltb_lt. done. Qed.

Lemma delete_app_l {A} (l1 l2 : list A) i :
  i < length l1 -> delete i (l1 ++ l2) = delete i l1 ++ l2.
Proof.
  revert i. induction l1 as [|x l1 IH]; intros [|i] H; simpl in *; try lia; [done|].
  by rewrite IH by lia.
Qed.

Lemma length_delete_lt {A} (l : list A) i : i < length l -> length (delete i l) = length l - 1.
Proof. intros H. apply length_delete. by apply lookup_lt_is_Some. Qed.

(** Indices that go down and lie in the front part of a list leave the rest
    of the list alone. *)
Lemma delete_each_app {A} ixs (l1 l2 : list A) :
  descending ixs -> Forall (fun j => (j < Z.of_nat (length l1))%Z) ixs ->
  delete_each ixs (l1 ++ l2) = delete_each ixs l1 ++ l2.
Proof.
  revert l1. induction ixs as [|i ixs IH]; intros l1 Hd Hlt; [done|].
  destruct Hd as [Hi Hd]. apply Forall_cons in Hlt as [Hi1 Hlt].
  unfold delete_each in *. simpl.
  destruct (valid_index i l1) eqn:Hv.
  - apply valid_index_spec in Hv.
    assert (valid_index i (l1 ++ l2) = true) as ->.
    { apply valid_index_spec. rewrite length_app. lia. }
    rewrite delete_app_l by lia. apply IH; [done|].
    rewrite length_delete_lt by lia.
    eapply Forall_impl; [exact Hi|]. simpl. lia.
  - assert (valid_index i (l1 ++ l2) = false) as ->.
    { apply not_true_is_false. intros Hv'. apply valid_index_spec in Hv'.
      apply not_true_iff_false in Hv. apply Hv. apply valid_index_spec. lia. }
    by apply IH.
Qed.

(** For indices that go down, deleting them one after the other is dropping
    their positions. *)
Lemma delete_each_descending {A} ixs (l : list A) :
  descending ixs -> delete_each ixs l = drop_positions 0 ixs l.
Proof.
  revert l. induction ixs as [|i ixs IH]; intros l Hd.
  { by rewrite drop_positions_below. }
  destruct Hd as [Hi Hd].
  change (delete_each (i :: ixs) l)
    with (delete_each ixs (if valid_index i l then delete (Z.to_nat i) l else l)).
  destruct (valid_index i l) eqn:Hv.
  - apply valid_index_spec in Hv.
    destruct (lookup_lt_is_Some_2 l (Z.to_nat i)) as [x Hx]; [lia|].
    rewrite <- (take_drop_middle l (Z.to_nat i) x Hx) at 2.
    rewrite drop_positions_app. simpl.
    rewrite length_take, Nat.min_l by lia. rewrite Z2Nat.id, Z.add_0_l by lia.
    rewrite Z.eqb_refl. simpl.
    rewrite (drop_positions_below (i + 1)).
    2:{ constructor; [lia|]. eapply Forall_impl; [exact Hi|]. simpl. lia. }
    rewrite drop_positions_outside by (rewrite length_take; lia).
    rewrite <- IH by done.
    rewrite delete_take_drop. apply delete_each_app; [done|].
    rewrite length_take, Nat.min_l by lia.
    eapply Forall_impl; [exact Hi|]. simpl. lia.
  - rewrite drop_positions_outside; [by apply IH|].
    apply not_true_iff_false in Hv. rewrite valid_index_spec in Hv. lia.
Qed.

Lemma delete_each_cons {A} i ixs (l : list A) :
  delete_each (i :: ixs) l
  = delete_each ixs (if valid_index i l then delete (Z.to_nat i) l else l).
Proof. reflexivity. Qed.

(** One turn of the loop. *)
Lemma ignore_loop_step i ixs s f ts w :
  ignore_loop E (i :: ixs) s f ts w
  = match (if valid_index i (_missing_items w)
           then _missing_items w !! Z.to_nat i else None) with
    | Some x =>
        ignore_loop E ixs (S s) f (ts ++ [default "Unknown" (title x)])
          (set_missing (delete (Z.to_nat i))
             (set_ignored (fun l => l ++ [with_ignored_on (Some (clock E (ticks w))) x])
                (now E w).2))
    | None => ignore_loop E ixs s (S f) ts w
    end.
Proof.
  cbn [ignore_loop]. unfold bind at 1. unfold gets at 1. cbn beta iota.
  destruct (if valid_index i (_missing_items w) then _missing_items w !! Z.to_nat i else None);
    reflexivity.
Qed.

(** What the loop does to the two registries, and what it counts. *)
Lemma ignore_loop_registries ixs s f ts w :
  let out := ignore_loop E ixs s f ts w in
  _missing_items out.2 = delete_each ixs (_missing_items w) /\
  length (_missing_items out.2) + length (_ignored_items out.2)
  = length (_missing_items w) + length (_ignored_items w) /\
  (exists moved, _ignored_items out.2 = _ignored_items w ++ moved) /\
  ((out.1).1).1 + length (_missing_items out.2) = s + length (_missing_items w) /\
  _emby_id_mapping out.2 = _emby_id_mapping w /\
  _library_cache out.2 = _library_cache w /\ http_log out.2 = http_log w.
Proof.
  revert s f ts w. induction ixs as [|i ixs IH]; intros s f ts w; cbv zeta.
  { simpl. repeat split; try done. exists []. by rewrite app_nil_r. }
  rewrite delete_each_cons, ignore_loop_step.
  destruct (valid_index i (_missing_items w)) eqn:Hv.
  - pose proof (proj1 (valid_index_spec _ _) Hv) as Hr.
    destruct (lookup_lt_is_Some_2 (_missing_items w) (Z.to_nat i)) as [x Hx]; [lia|].
    rewrite Hx.
    match goal with |- context [ignore_loop E ixs ?s' ?f' ?ts' ?w'] =>
      set (w1 := w');
      assert (_missing_items w1 = delete (Z.to_nat i) (_missing_items w)) as Em by reflexivity;
      assert (exists y, _ignored_items w1 = _ignored_items w ++ [y]) as [y Ei] by (eexists; reflexivity);
      assert (_emby_id_mapping w1 = _emby_id_mapping w) as E1 by reflexivity;
      assert (_library_cache w1 = _library_cache w) as E2 by reflexivity;
      assert (http_log w1 = http_log w) as E3 by reflexivity;
      destruct (IH s' f' ts' w1) as (H1 & H2 & [moved H3] & H4 & H5 & H6 & H7);
      clearbody w1
    end.
    rewrite Em in H1, H2, H4. rewrite Ei in H2, H3. rewrite E1 in H5.
    rewrite E2 in H6. rewrite E3 in H7.
    rewrite length_delete_lt in H2, H4 by lia. rewrite length_app in H2. simpl in H2.
    repeat split; try done; try lia.
    eexists. rewrite H3, <- app_assoc. done.
  - destruct (IH s (S f) ts w) as (H1 & H2 & H3 & H4 & H5 & H6 & H7).
    repeat split; try done; lia.
Qed.

(** X12: for indices that are all different, [ignore_missing_items]
    leaves of the unresolved registry exactly the records whose positions are
    not among the indices, in their order, whatever the order of the indices
    and however many of them are no positions of the registry; the ignored
    registry keeps its records in front and grows by as many records as the
    unresolved registry loses, and the call reports success exactly when a
    record was moved. *)
Theorem ignore_missing_items_distinct (item_indices : list Z) (w : world) :
  NoDup item_indices ->
  let out := ignore_missing_items E item_indices w in
  _missing_items out.2 = drop_positions 0 item_indices (_missing_items w) /\
  (exists moved, _ignored_items out.2 = _ignored_items w ++ moved /\
                 length moved + length (_missing_items out.2) = length (_missing_items w)) /\
  ((out.1).1 = true <-> length (_missing_items out.2) < length (_missing_items w)).
Proof.
  intros Hnd. unfold ignore_missing_items.
  destruct item_indices as [|i l].
  { simpl. rewrite drop_positions_below by done. split; [done|]. split; [|split; [done|lia]].
    exists []. by rewrite app_nil_r. }
  lazy iota. set (item_indices := i :: l) in *. clearbody item_indices.
  unfold bind.
  destruct (ignore_loop_registries (sorted_desc item_indices) 0 0 [] w)
    as (H1 & H2 & [moved H3] & H4 & _).
  destruct (ignore_loop E (sorted_desc item_indices) 0 0 [] w) as [[[sc fc] ts] w'].
  simpl in *.
  assert (_missing_items w' = drop_positions 0 item_indices (_missing_items w)) as Hm.
  { rewrite H1, delete_each_descending by by apply descending_sorted_desc.
    apply drop_positions_ext. intros j. apply elem_of_sorted_desc. }
  assert (length moved + length (_missing_items w') = length (_missing_items w)) as Hlen.
  { rewrite H3, length_app in H2. lia. }
  destruct (Nat.ltb 0 sc) eqn:Hsc; unfold ret; simpl.
  - apply Nat.ltb_lt in Hsc. split; [done|]. split; [by exists moved|]. split; [lia|done].
  - apply Nat.ltb_ge in Hsc. split; [done|]. split; [by exists moved|]. split; [done|lia].
Qed.

End BulkIgnore.

(** The theorem at the indices 3, 0 and 7 of a registry of four records. *)
Lemma ignore_missing_items_distinct_witness :
  let E := library_server [] in
  let rec := fun t => unresolved t t "Crime" in
  let w := set_missing (fun _ => [rec "a"; rec "b"; rec "c"; rec "d"]) empty_world in
  drop_positions 0 [3; 0; 7]%Z (_missing_items w) = [rec "b"; rec "c"] /\
  _missing_items (ignore_missing_items E [3; 0; 7]%Z w).2 = [rec "b"; rec "c"].
Proof.
  intros E rec w. split; [reflexivity|].
  assert (NoDup [3; 0; 7]%Z) as Hnd.
  { repeat (constructor; [rewrite ?elem_of_cons, elem_of_nil; lia|]). constructor. }
  exact (proj1 (ignore_missing_items_distinct E [3; 0; 7]%Z w Hnd)).
Defined.

(** ** Records the module writes *)

Section Provenance.

Context (E : env).

Lemma indexed_valid {A} (item_index : Z) (l : list A) r :
  (0 <= item_index)%Z -> l !! Z.to_nat item_index = Some r ->
  (if valid_index item_index l then l !! Z.to_nat item_index else None) = Some r.
Proof.
  intros H0 Hr. assert (valid_index item_index l = true) as ->; [|done].
  apply valid_index_spec. apply lookup_lt_Some in Hr. lia.
Qed.

Lemma not_indexed {A} (item_index : Z) (l : list A) :
  ~ (0 <= item_index < Z.of_nat (length l))%Z ->
  (if valid_index item_index l then l !! Z.to_nat item_index else None) = None.
Proof.
  intros H. destruct (valid_index item_index l) eqn:Hv; [|done].
  by apply valid_index_spec in Hv.
Qed.

Lemma written_here_move from to i r r' :
  from !! i = Some r -> (written_here r -> written_here r') ->
  Forall written_here (from ++ to) -> Forall written_here (delete i from ++ (to ++ [r'])).
Proof.
  intros Hr Hrr' [Hf Ht]%Forall_app.
  apply Forall_app. split; [by apply Forall_delete|].
  apply Forall_app. split; [done|]. constructor; [|done].
  apply Hrr'. by apply (Forall_lookup_1 _ _ _ _ Hf Hr).
Qed.

Lemma ignore_missing_item_written item_index w :
  registries_written_here w -> registries_written_here (ignore_missing_item E item_index w).2.
Proof.
  unfold registries_written_here, ignore_missing_item, bind, ret, gets, modify, now. simpl.
  destruct (if valid_index _ _ then _ else _) as [r|] eqn:Hr; simpl; [|done].
  apply indexed in Hr. by apply written_here_move with r.
Qed.

Lemma unignore_item_written item_index w :
  registries_written_here w -> registries_written_here (unignore_item E item_index w).2.
Proof.
  unfold registries_written_here, unignore_item, bind, ret, gets, modify, now. simpl.
  destruct (if valid_index _ _ then _ else _) as [r|] eqn:Hr; simpl; [|done].
  apply indexed in Hr. intros H.
  apply Forall_app in H as [Hm Hi]. apply Forall_app. split.
  - apply Forall_app. split; [done|]. constructor; [|done].
    apply (Forall_lookup_1 _ _ _ _ Hi Hr).
  - by apply Forall_delete.
Qed.

Lemma ignore_loop_written ixs s f ts w :
  registries_written_here w -> registries_written_here (ignore_loop E ixs s f ts w).2.
Proof.
  revert s f ts w. induction ixs as [|i ixs IH]; intros s f ts w H; [done|].
  rewrite ignore_loop_step.
  destruct (if valid_index _ _ then _ else _) as [r|] eqn:Hr; [|by apply IH].
  apply IH. apply indexed in Hr. unfold registries_written_here in *. simpl.
  by apply written_here_move with r.
Qed.

Lemma ignore_missing_items_written item_indices w :
  registries_written_here w ->
  registries_written_here (ignore_missing_items E item_indices w).2.
Proof.
  intros H. unfold ignore_missing_items. destruct item_indices as [|i l]; [done|].
  unfold bind. pose proof (ignore_loop_written (sorted_desc (i :: l)) 0 0 [] w H) as Hl.
  destruct (ignore_loop _ _ _ _ _ w) as [[[s f] ts] w']. simpl in *.
  by destruct (Nat.ltb 0 s).
Qed.

Lemma add_to_missing_items_written item_data item_type collection_name library_id reason w :
  registries_written_here w ->
  registries_written_here
    (add_to_missing_items E item_data item_type collection_name library_id reason w).2.
Proof.
  unfold registries_written_here, add_to_missing_items, bind, ret, gets, modify, now. simpl.
  intros [Hm Hi]%Forall_app.
  destruct (find_index _ (_ignored_items w)) as [i|]; simpl.
  { apply Forall_app. split; [done|]. by apply Forall_alter. }
  destruct (if truthy_opt _ then _ else _) as [i|]; simpl.
  { apply Forall_app. split; [|done]. by apply Forall_alter. }
  apply Forall_app. split; [|done]. apply Forall_app. split; [done|].
  by constructor.
Qed.

Lemma run_ops_written ops w :
  registries_written_here w -> registries_written_here (run_ops E ops w).
Proof.
  revert w. induction ops as [|op ops IH]; intros w H; [done|].
  simpl. apply IH. destruct op; simpl.
  - by apply add_to_missing_items_written.
  - by apply ignore_missing_item_written.
  - by apply ignore_missing_items_written.
  - by apply unignore_item_written.
Qed.

(** X13: a record that the module wrote is never found by
    [recheck_missing_item] without a manual target id, whatever the library
    holds.  The record keeps the entry's ids under ['ids'], the recheck reads
    them under ['trakt_ids'], so both search functions are called without
    ids and give up at once: no request is made, the answer is that the
    title could not be found, and only the record's time of the last check
    changes. *)
Theorem recheck_without_manual_id_never_finds (ops : list registry_op) (w0 : world)
    (item_index : Z) (manual_emby_id : option string) (item : missing_item) :
  registries_written_here w0 ->
  truthy_opt manual_emby_id = false ->
  (0 <= item_index)%Z ->
  let w := run_ops E ops w0 in
  _missing_items w !! Z.to_nat item_index = Some item ->
  let out := recheck_missing_item E item_index manual_emby_id w in
  out.1 = (false, "Could not find " +:+ default "" (title item) +:+ " in Emby library") /\
  _missing_items out.2
  = alter (with_last_checked (clock E (ticks w))) (Z.to_nat item_index) (_missing_items w) /\
  _ignored_items out.2 = _ignored_items w /\
  _emby_id_mapping out.2 = _emby_id_mapping w /\
  http_log out.2 = http_log w.
Proof.
  intros Hw0 Hmanual H0 w Hitem.
  pose proof (run_ops_written ops w0 Hw0) as Hw. fold w in Hw.
  apply Forall_app in Hw as [Hm _].
  destruct (Forall_lookup_1 _ _ _ _ Hm Hitem) as [Hids _].
  assert (recheck_missing_item E item_index manual_emby_id w
          = ((false, "Could not find " +:+ default "" (title item) +:+ " in Emby library"),
             set_missing (alter (with_last_checked (clock E (ticks w))) (Z.to_nat item_index))
               (now E w).2)) as Heq.
  { unfold recheck_missing_item.
    unfold bind at 1. unfold gets at 1. cbn beta iota.
    rewrite (indexed_valid _ _ _ H0 Hitem), Hmanual, Hids.
    unfold search_in_emby, search_movie_in_emby, search_tv_show_in_emby.
    rewrite bool_decide_eq_true_2 by done.
    destruct (String.eqb (item_type item) "movie"); reflexivity. }
  cbv zeta. rewrite Heq. done.
Qed.

(** X14: in registries that the module wrote,
    [clear_missing_items_for_collection] removes nothing, whatever the
    collection: it compares the key ['collection_name'], and the records
    carry their collections under ['collections'].  It answers with the
    number of unresolved records, all of them still there. *)
Theorem clear_missing_items_for_collection_removes_nothing (ops : list registry_op)
    (w0 : world) (collection_name : string) :
  registries_written_here w0 ->
  let w := run_ops E ops w0 in
  clear_missing_items_for_collection collection_name w = (length (_missing_items w), w).
Proof.
  intros Hw0 w.
  pose proof (run_ops_written ops w0 Hw0) as Hw. fold w in Hw. clearbody w.
  apply Forall_app in Hw as [Hm _].
  assert (List.filter (fun item => negb (old_collection_is collection_name item))
            (_missing_items w) = _missing_items w) as Hf.
  { induction Hm as [|r l [_ Hr] Hl IH]; [done|]. simpl.
    unfold old_collection_is at 1. rewrite Hr, bool_decide_eq_false_2 by done. simpl.
    by rewrite IH. }
  unfold clear_missing_items_for_collection, bind, modify, gets, set_missing.
  destruct w. simpl in *. by rewrite !Hf.
Qed.

Lemma ignore_loop_all_invalid ixs s f ts w :
  Forall (fun i => ~ (0 <= i < Z.of_nat (length (_missing_items w)))%Z) ixs ->
  ignore_loop E ixs s f ts w = ((s, f + length ixs, ts), w).
Proof.
  revert f. induction ixs as [|i ixs IH]; intros f H.
  { simpl. unfold ret. by rewrite Nat.add_0_r. }
  apply Forall_cons in H as [Hi H].
  rewrite ignore_loop_step, (not_indexed _ _ Hi), IH by done.
  simpl. by rewrite Nat.add_succ_r.
Qed.

(** X15: an index that is no position of the registry changes nothing.
    [ignore_missing_item] and [recheck_missing_item] answer
    ["Invalid item index"], [ignore_missing_items] with only such indices
    answers that no valid items were ignored, and [unignore_item] answers
    ["Invalid item index"] for an index that is no position of the ignored
    registry; the registries, the mapping store, the clock and the requests
    are as before. *)
Theorem invalid_index_changes_nothing (item_index : Z) (item_indices : list Z)
    (manual_emby_id : option string) (w : world) :
  (~ (0 <= item_index < Z.of_nat (length (_missing_items w)))%Z ->
     ignore_missing_item E item_index w = ((false, "Invalid item index"), w) /\
     recheck_missing_item E item_index manual_emby_id w = ((false, "Invalid item index"), w)) /\
  (Forall (fun i => ~ (0 <= i < Z.of_nat (length (_missing_items w)))%Z) item_indices ->
     item_indices <> [] ->
     ignore_missing_items E item_indices w = ((false, "No valid items were ignored"), w)) /\
  (~ (0 <= item_index < Z.of_nat (length (_ignored_items w)))%Z ->
     unignore_item E item_index w = ((false, "Invalid item index"), w)).
Proof.
  split; [|split].
  - intros H. unfold ignore_missing_item, recheck_missing_item, bind, gets.
    by rewrite (not_indexed _ _ H).
  - intros H Hne. unfold ignore_missing_items.
    destruct item_indices as [|i l]; [done|].
    unfold bind. rewrite ignore_loop_all_invalid; [done|].
    apply Forall_forall. intros j Hj. apply (proj1 (elem_of_sorted_desc _ _)) in Hj.
    by apply (proj1 (Forall_forall _ _) H).
  - intros H. unfold unignore_item, bind, gets.
    by rewrite (not_indexed _ _ H).
Qed.

End Provenance.

(** The theorem after an entry was added, ignored and taken back, with a
    library that holds the very film. *)
Lemma recheck_without_manual_id_never_finds_witness :
  let E := library_server [heat_item] in
  let heat := {| t_title := Some "Heat"; t_year := Some 1995%Z;
                 t_ids := {["trakt" := "352"; "imdb" := "tt0113277"]} |} in
  let ops := [AddUnresolved heat "movie" "Crime" (Some "1") "No matching IDs found in Emby library";
              Ignore 0; Unignore 0] in
  let w := run_ops E ops empty_world in
  exists item,
    _missing_items w !! 0 = Some item /\
    ids item = {["trakt" := "352"; "imdb" := "tt0113277"]} /\
    (recheck_missing_item E 0 None w).1
    = (false, "Could not find Heat in Emby library") /\
    http_log (recheck_missing_item E 0 None w).2 = [].
Proof.
  intros E heat ops w. eexists. split; [reflexivity|]. split; [reflexivity|].
  assert (registries_written_here empty_world) as H0 by constructor.
  destruct (recheck_without_manual_id_never_finds E ops empty_world 0 None _ H0
              eq_refl (Z.le_refl 0) eq_refl) as (H1 & _ & _ & _ & H5).
  split; [exact H1|exact H5].
Defined.

(** The theorem after two entries of one collection were added. *)
Lemma clear_missing_items_for_collection_removes_nothing_witness :
  let E := library_server [] in
  let entry := fun t k => {| t_title := Some t; t_year := None; t_ids := {["trakt" := k]} |} in
  let ops := [AddUnresolved (entry "Heat" "352") "movie" "Crime" (Some "1") "none";
              AddUnresolved (entry "Ronin" "353") "movie" "Crime" (Some "1") "none"] in
  let w := run_ops E ops empty_world in
  length (_missing_items w) = 2 /\
  clear_missing_items_for_collection "Crime" w = (2, w).
Proof.
  intros E entry ops w. split; [reflexivity|].
  assert (registries_written_here empty_world) as H0 by constructor.
  exact (clear_missing_items_for_collection_removes_nothing E ops empty_world "Crime" H0).
Defined.

(** The theorem at the index 5 and the indices 5 and -1 of registries of one
    record each. *)
Lemma invalid_index_changes_nothing_witness :
  let E := library_server [] in
  let w := set_ignored (fun _ => [unresolved "Ronin" "353" "Crime"])
             (set_missing (fun _ => [unresolved "Heat" "352" "Crime"]) empty_world) in
  ignore_missing_item E 5 w = ((false, "Invalid item index"), w) /\
  recheck_missing_item E 5 (Some "10") w = ((false, "Invalid item index"), w) /\
  ignore_missing_items E [5; -1]%Z w = ((false, "No valid items were ignored"), w) /\
  unignore_item E 5 w = ((false, "Invalid item index"), w).
Proof.
  intros E w.
  destruct (invalid_index_changes_nothing E 5 [5; -1]%Z (Some "10") w) as (H1 & H2 & H3).
  assert (~ (0 <= 5 < Z.of_nat (length (_missing_items w)))%Z) as Hm by (simpl; lia).
  assert (~ (0 <= 5 < Z.of_nat (length (_ignored_items w)))%Z) as Hi by (simpl; lia).
  assert (Forall (fun i => ~ (0 <= i < Z.of_nat (length (_missing_items w)))%Z) [5; -1]%Z) as Hf.
  { repeat constructor; simpl; lia. }
  split; [exact (proj1 (H1 Hm))|]. split; [exact (proj2 (H1 Hm))|].
  split; [exact (H2 Hf ltac:(discriminate))|exact (H3 Hi)].
Defined.

(** ** Collections *)

Section Collections.

Context (E : env).

(** The lookup of a collection is one request, whatever the answer. *)
Lemma find_collection_by_name_run collection_name w :
  find_collection_by_name E collection_name w
  = (match emby E (http_log w) GetBoxSets with
     | Response code items _ =>
         if Z.eqb code 200 then Id <$> List.find (named collection_name) items else None
     | Raised _ => None
     end, (http E GetBoxSets w).2).
Proof.
  unfold find_collection_by_name, bind, http, ret. simpl.
  destruct (emby E (http_log w) GetBoxSets) as [e|code items j]; [done|].
  by destruct (Z.eqb code 200).
Qed.

(** X16: when the server already has a collection of the name (in any
    letter case) with an id, [create_emby_collection_with_movies] answers
    with that id after the one request that lists the collections: nothing
    is created, and none of the given items is added to the collection. *)
Theorem create_emby_collection_with_movies_existing (collection_name : string)
    (movie_ids : list string) (w : world) (items : list emby_item)
    (json_id : option string) (existing : emby_item) :
  movie_ids <> [] ->
  emby E (http_log w) GetBoxSets = Response 200 items json_id ->
  List.find (named collection_name) items = Some existing ->
  truthy (Id existing) = true ->
  let out := create_emby_collection_with_movies E collection_name movie_ids w in
  out.1 = Some (Id existing) /\
  http_log out.2 = http_log w ++ [GetBoxSets] /\
  _library_cache out.2 = _library_cache w /\
  _emby_id_mapping out.2 = _emby_id_mapping w.
Proof.
  intros Hne Hget Hfind Hid.
  assert (create_emby_collection_with_movies E collection_name movie_ids w
          = (Some (Id existing), (http E GetBoxSets w).2)) as Heq.
  { unfold create_emby_collection_with_movies.
    destruct movie_ids as [|first_movie_id others]; [done|].
    unfold bind at 1. rewrite find_collection_by_name_run, Hget. simpl.
    rewrite Hfind. simpl. by rewrite Hid. }
  cbv zeta. by rewrite Heq.
Qed.

(** X17: an id that [create_emby_collection_with_movies] answers with is
    never empty, whichever of its three ways gave it and whatever the server
    answered. *)
Theorem create_emby_collection_with_movies_id_not_empty (collection_name : string)
    (movie_ids : list string) (w : world) (collection_id : string) :
  (create_emby_collection_with_movies E collection_name movie_ids w).1 = Some collection_id ->
  collection_id <> "".
Proof.
  assert (forall x : option string, truthy_opt x = true -> x = Some collection_id ->
            collection_id <> "") as Hnot.
  { intros x Hx -> ->. done. }
  unfold create_emby_collection_with_movies.
  destruct movie_ids as [|first_movie_id others]; [done|].
  unfold bind at 1. rewrite find_collection_by_name_run.
  match goal with |- context [truthy_opt ?x] => destruct (truthy_opt x) eqn:H1 end.
  { unfold ret. simpl. by apply Hnot. }
  unfold bind at 1.
  destruct (create_collection_legacy_format E _ _ _) as [x2 w2].
  destruct (truthy_opt x2) eqn:H2.
  { unfold ret. simpl. by apply Hnot. }
  unfold bind at 1.
  destruct (http E _ w2) as [[e|code its j] w3]; [done|].
  destruct (is_success code); [|done].
  unfold bind at 1. rewrite find_collection_by_name_run.
  match goal with |- context [truthy_opt ?x] => destruct (truthy_opt x) eqn:H3 end; [|done].
  unfold bind at 1.
  destruct (add_rest E _ _ _ _) as [n w4]. unfold ret. simpl. by apply Hnot.
Qed.

End Collections.

(** The theorem at a server that has the collection under another letter
    case. *)
Lemma create_emby_collection_with_movies_existing_witness :
  let boxset := {| Id := "900"; Name := "CRIME"; ProductionYear := None;
                   ProviderIds := ∅; Path := "" |} in
  let E := {| EMBY_MOVIES_LIBRARY_ID := "1"; EMBY_TV_LIBRARY_ID := "2";
              emby := fun _ r => match r with
                                 | GetBoxSets => Response 200 [boxset] None
                                 | _ => Response 204 [] None
                                 end;
              clock := fun n => str_of_Z (Z.of_nat n) |} in
  let out := create_emby_collection_with_movies E "Crime" ["10"; "11"] empty_world in
  out.1 = Some "900" /\ http_log out.2 = [GetBoxSets].
Proof.
  intros boxset E.
  destruct (create_emby_collection_with_movies_existing E "Crime" ["10"; "11"] empty_world
              [boxset] None boxset ltac:(discriminate) eq_refl eq_refl eq_refl)
    as (H1 & H2 & _).
  split; [exact H1|exact H2].
Defined.

(** The theorem at a server that creates the collection and names its id. *)
Lemma create_emby_collection_with_movies_id_not_empty_witness :
  let E := {| EMBY_MOVIES_LIBRARY_ID := "1"; EMBY_TV_LIBRARY_ID := "2";
              emby := fun _ r => match r with
                                 | PostCollections _ _ => Response 200 [] (Some "901")
                                 | _ => Response 200 [] None
                                 end;
              clock := fun n => str_of_Z (Z.of_nat n) |} in
  (create_emby_collection_with_movies E "Crime" ["10"] empty_world).1 = Some "901" /\
  "901" <> "".
Proof.
  intros E. split; [reflexivity|].
  exact (create_emby_collection_with_movies_id_not_empty E "Crime" ["10"] empty_world "901"
           eq_refl).
Defined.

(** ** Texts *)

Module PathFacts.
Import Text.

Lemma take_while_drop_while p s : take_while p s ++ drop_while p s = s.
Proof. induction s as [|c s IH]; simpl; [done|]. destruct (p c); simpl; by rewrite ?IH. Qed.

Lemma forallb_take_while p s : forallb p (take_while p s) = true.
Proof. induction s as [|c s IH]; simpl; [done|]. destruct (p c) eqn:Hc; simpl; by rewrite ?Hc. Qed.

Lemma take_while_stop p ds c r :
  forallb p ds = true -> p c = false ->
  take_while p (ds ++ c :: r) = ds /\ drop_while p (ds ++ c :: r) = c :: r.
Proof.
  intros Hds Hc. induction ds as [|d ds IH]; simpl in *.
  - by rewrite Hc.
  - apply andb_true_iff in Hds as [Hd Hds]. rewrite Hd.
    destruct (IH Hds) as [-> ->]. done.
Qed.

Lemma strip_prefix_same p r : strip_prefix p (p ++ r) = Some r.
Proof. induction p as [|a p IH]; simpl; [done|]. by rewrite Ascii.eqb_refl. Qed.

Lemma match_imdb_tag_some s g :
  match_imdb_tag s = Some g ->
  exists ds post, s = imdb_tag ds ++ post /\ digits ds /\ g = "t"%char :: "t"%char :: ds.
Proof.
  unfold match_imdb_tag.
  destruct (strip_prefix (chars "[imdbid-tt") s) as [r|] eqn:Hr; [|done].
  apply TextFacts.strip_prefix_app in Hr.
  pose proof (take_while_drop_while is_digit r) as Hsplit.
  pose proof (forallb_take_while is_digit r) as Hds.
  destruct (take_while is_digit r) as [|d ds]; [done|].
  destruct (drop_while is_digit r) as [|c post]; [done|].
  destruct (Ascii.eqb c "]") eqn:Hc; [|done]. apply Ascii.eqb_eq in Hc. subst c.
  intros [= <-]. exists (d :: ds), post. split; [|done].
  unfold imdb_tag. rewrite Hr, <- Hsplit, <- !app_assoc. done.
Qed.

Lemma match_imdb_tag_tag ds post :
  digits ds -> match_imdb_tag (imdb_tag ds ++ post) = Some ("t"%char :: "t"%char :: ds).
Proof.
  intros [Hne Hds]. unfold match_imdb_tag, imdb_tag.
  rewrite <- !app_assoc, strip_prefix_same.
  change (["]"%char] ++ post) with ("]"%char :: post).
  destruct (take_while_stop is_digit ds "]"%char post Hds eq_refl) as [-> ->].
  by destruct ds.
Qed.

Lemma strip_prefix_other a p c s : c <> a -> strip_prefix (a :: p) (c :: s) = None.
Proof.
  intros Hc. simpl. destruct (Ascii.eqb a c) eqn:H; [|done].
  apply Ascii.eqb_eq in H. by subst.
Qed.

Lemma match_imdb_tag_other c s : c <> "["%char -> match_imdb_tag (c :: s) = None.
Proof.
  intros Hc. unfold match_imdb_tag.
  change (chars "[imdbid-tt") with ("["%char :: chars "imdbid-tt").
  by rewrite strip_prefix_other.
Qed.

Lemma search_imdb_tag_eq s :
  search_imdb_tag s
  = match match_imdb_tag s with
    | Some g => Some g
    | None => match s with _ :: s' => search_imdb_tag s' | [] => None end
    end.
Proof. by destruct s. Qed.

Lemma search_imdb_tag_some s g :
  search_imdb_tag s = Some g ->
  exists pre ds post, s = pre ++ imdb_tag ds ++ post /\ digits ds
                      /\ g = "t"%char :: "t"%char :: ds.
Proof.
  induction s as [|c s IH]; rewrite search_imdb_tag_eq.
  - destruct (match_imdb_tag []) eqn:Hm; [|done]. intros [= <-].
    destruct (match_imdb_tag_some _ _ Hm) as (ds & post & H1 & H2 & H3).
    by exists [], ds, post.
  - destruct (match_imdb_tag (c :: s)) eqn:Hm.
    + intros [= <-]. destruct (match_imdb_tag_some _ _ Hm) as (ds & post & H1 & H2 & H3).
      by exists [], ds, post.
    + intros (pre & ds & post & -> & H2 & H3)%IH. by exists (c :: pre), ds, post.
Qed.

Lemma search_imdb_tag_is_some pre ds post :
  digits ds -> is_Some (search_imdb_tag (pre ++ imdb_tag ds ++ post)).
Proof.
  intros Hds. induction pre as [|c pre IH]; rewrite search_imdb_tag_eq.
  - rewrite app_nil_l. by rewrite match_imdb_tag_tag.
  - rewrite <- app_comm_cons. destruct (match_imdb_tag _); [done|]. exact IH.
Qed.

Lemma search_imdb_tag_first pre ds post :
  digits ds -> "["%char ∉ pre ->
  search_imdb_tag (pre ++ imdb_tag ds ++ post) = Some ("t"%char :: "t"%char :: ds).
Proof.
  intros Hds. induction pre as [|c pre IH]; intros Hpre; rewrite search_imdb_tag_eq.
  - rewrite app_nil_l. by rewrite match_imdb_tag_tag.
  - apply not_elem_of_cons in Hpre as [Hc Hpre].
    rewrite <- app_comm_cons. rewrite match_imdb_tag_other by done. by apply IH.
Qed.

Lemma contains_eq p s :
  contains p s = startswith p s || match s with _ :: s' => contains p s' | [] => false end.
Proof. by destruct s. Qed.

Lemma contains_app p pre r : contains p (pre ++ p ++ r) = true.
Proof.
  induction pre as [|c pre IH]; rewrite contains_eq.
  - rewrite app_nil_l. unfold startswith. by rewrite strip_prefix_same.
  - rewrite <- app_comm_cons. rewrite IH. apply orb_true_r.
Qed.

End PathFacts.

(** X18: [extract_imdb_from_path] answers with [tt] and the digits of a
    tag [[imdbid-tt<digits>]] that stands in the path, and with nothing else;
    it answers whenever the path has such a tag, and with the digits of the
    tag in front of which the path has no other ["["]. *)
Theorem extract_imdb_from_path_tag (path : string) :
  (forall imdb_id, extract_imdb_from_path path = Some imdb_id ->
     exists pre ds post,
       Text.chars path = pre ++ imdb_tag ds ++ post /\ digits ds /\
       imdb_id = string_of_list_ascii ("t"%char :: "t"%char :: ds)) /\
  (forall pre ds post,
     Text.chars path = pre ++ imdb_tag ds ++ post -> digits ds ->
     is_Some (extract_imdb_from_path path) /\
     ("["%char ∉ pre ->
      extract_imdb_from_path path = Some (string_of_list_ascii ("t"%char :: "t"%char :: ds)))).
Proof.
  unfold extract_imdb_from_path. split.
  - intros imdb_id. destruct (_ || _); [done|].
    destruct (search_imdb_tag (Text.chars path)) as [g|] eqn:Hg; [|done].
    intros [= <-].
    destruct (PathFacts.search_imdb_tag_some _ _ Hg) as (pre & ds & post & H1 & H2 & ->).
    by exists pre, ds, post.
  - intros pre ds post Hpath Hds.
    assert (truthy path = true) as ->.
    { destruct path; [|done]. simpl in Hpath. unfold imdb_tag in Hpath.
      symmetry in Hpath. apply app_eq_nil in Hpath as [_ Hpath]. done. }
    assert (str_contains "[imdbid-" path = true) as ->.
    { unfold str_contains. rewrite Hpath. unfold imdb_tag.
      change (Text.chars "[imdbid-tt")
        with (Text.chars "[imdbid-" ++ ["t"%char; "t"%char]).
      rewrite <- !app_assoc. apply PathFacts.contains_app. }
    simpl. rewrite Hpath. split.
    + destruct (PathFacts.search_imdb_tag_is_some pre ds post Hds) as [g ->]. by eexists.
    + intros Hpre. by rewrite PathFacts.search_imdb_tag_first.
Qed.

(** The theorem at a path of a film folder. *)
Lemma extract_imdb_from_path_tag_witness :
  let path := "/films/Heat (1995) [imdbid-tt0113277]/Heat.mkv" in
  Text.chars path = Text.chars "/films/Heat (1995) " ++ imdb_tag (Text.chars "0113277")
                    ++ Text.chars "/Heat.mkv" /\
  extract_imdb_from_path path = Some "tt0113277".
Proof.
  intros path. split; [reflexivity|].
  assert (digits (Text.chars "0113277")) as Hds by (split; [discriminate|reflexivity]).
  assert ("["%char ∉ Text.chars "/films/Heat (1995) ") as Hpre.
  { intros H. apply list_elem_of_In in H. simpl in H.
    repeat (destruct H as [H|H]; [discriminate|]). exact H. }
  exact (proj2 (proj2 (extract_imdb_from_path_tag path) (Text.chars "/films/Heat (1995) ")
                  (Text.chars "0113277") (Text.chars "/Heat.mkv") eq_refl Hds) Hpre).
Defined.

(** X19: a normalized title is made of words of small letters, digits and
    underscores with one space between two of them: no capital, no
    punctuation, no space at either end and no two spaces in a row. *)
Theorem normalize_title_shape (title : string) :
  exists ws, Forall plain_word ws /\
             normalize_title title = string_of_list_ascii (Text.join ws).
Proof.
  unfold normalize_title, Text.normalize_chars. eexists. split; [|reflexivity].
  eapply Forall_impl; [apply (TextFacts.normalize_chars_words (Text.chars title))|].
  intros w [Hne Hw]. split; [done|].
  eapply Forall_impl; [exact Hw|]. simpl. intros c [Hc Hs].
  unfold Text.clean in Hc. rewrite Hs, orb_false_r in Hc.
  apply andb_true_iff in Hc as [Hc Hl]. by apply Ascii.eqb_eq in Hl.
Qed.

(** ** The fuzzy fallback *)

(** One turn of the loop, with the two states it goes through. *)
Lemma fuzzy_loop_cons nt year item rest bm bs :
  fuzzy_loop nt year (item :: rest) bm bs
  = if year_too_far year (ProductionYear item) then fuzzy_loop nt year rest bm bs
    else
      let ni := normalize_title (Name item) in
      if String.eqb nt ni then (Some item, 1%Q)
      else
        let s1 : option emby_item * Q :=
          if (str_contains nt ni || str_contains ni nt)
             && (negb (bool_decide (is_Some bm)) || Qlt_bool bs (9 # 10))
          then (Some item, 9 # 10) else (bm, bs) in
        let overlap := overlap_score (word_set nt) (word_set ni) in
        let s2 : option emby_item * Q :=
          if negb (bool_decide (word_set nt = ∅)) && negb (bool_decide (word_set ni = ∅))
             && Qlt_bool (6 # 10) overlap && Qlt_bool s1.2 overlap
          then (Some item, overlap) else s1 in
        fuzzy_loop nt year rest s2.1 s2.2.
Proof.
  cbn [fuzzy_loop]. cbv zeta.
  destruct (year_too_far year (ProductionYear item)); [done|].
  destruct (String.eqb nt (normalize_title (Name item))); [done|].
  destruct ((str_contains _ _ || str_contains _ _) && _); cbn [fst snd];
    destruct (_ && _ && _ && _); reflexivity.
Qed.

Lemma fuzzy_loop_similar (P : emby_item -> Prop) nt year lib bm bs :
  (forall it, bm = Some it -> P it) ->
  (forall it, In it lib -> year_too_far year (ProductionYear it) = false ->
     similar nt it -> P it) ->
  forall it, (fuzzy_loop nt year lib bm bs).1 = Some it -> P it.
Proof.
  revert bm bs. induction lib as [|item rest IH]; intros bm bs Hbm Hlib it.
  { apply Hbm. }
  assert (forall it, In it rest -> year_too_far year (ProductionYear it) = false ->
            similar nt it -> P it) as Hrest.
  { intros ? ? ? ?. apply Hlib; [by right|done|done]. }
  rewrite fuzzy_loop_cons.
  destruct (year_too_far year (ProductionYear item)) eqn:Hfar; [by apply IH|].
  assert (similar nt item -> P item) as Hitem by (apply Hlib; [by left|done]).
  cbv zeta. destruct (String.eqb nt (normalize_title (Name item))) eqn:Heq.
  { intros [= <-]. apply Hitem. left. by apply String.eqb_eq. }
  apply IH; [|done].
  match goal with
  | |- context [if ?c then (Some item, ?o) else ?s1] =>
      destruct c eqn:Hc; cbn [fst snd]
  end.
  { intros ? [= <-]. apply Hitem. right. right. right.
    apply andb_true_iff in Hc as [Hc _]. by apply andb_true_iff in Hc as [_ Hc]. }
  match goal with
  | |- context [if ?c then (Some item, ?o) else ?s1] =>
      destruct c eqn:Hc1; cbn [fst snd]; [|done]
  end.
  intros ? [= <-]. apply Hitem. right.
  apply andb_true_iff in Hc1 as [Hc1 _]. apply orb_true_iff in Hc1. tauto.
Qed.

(** X20: an item that the fuzzy fallback accepts is an item of the
    library within the year window, and its normalized name is the
    normalized title, contains it, is contained in it, or shares more than
    six tenths of the words with it; no other item is ever accepted. *)
Theorem fuzzy_title_match_similar (title : string) (year : option Z)
    (library_items : list emby_item) (item : emby_item) :
  fuzzy_title_match title year library_items = Some item ->
  In item library_items /\ in_window year item = true /\
  similar (normalize_title title) item.
Proof.
  intros H. destruct (fuzzy_title_match_best _ _ _ _ H) as [Hin Hwin].
  split; [done|]. split; [unfold in_window; by rewrite Hwin|].
  revert H. unfold fuzzy_title_match.
  destruct (fuzzy_loop (normalize_title title) year library_items None 0) as [bm bs] eqn:Hloop.
  destruct bm as [it|]; [|done]. destruct (Qle_bool _ _); [|done]. intros [= ->].
  apply (fuzzy_loop_similar (similar (normalize_title title))
           (normalize_title title) year library_items None 0); [done|done|by rewrite Hloop].
Qed.

Lemma fuzzy_loop_exact nt year lib item bm bs :
  List.find (same_title nt year) lib = Some item ->
  fuzzy_loop nt year lib bm bs = (Some item, 1%Q).
Proof.
  revert bm bs. induction lib as [|it rest IH]; intros bm bs; [done|].
  rewrite fuzzy_loop_cons. cbn [List.find]. unfold same_title at 1, in_window.
  destruct (year_too_far year (ProductionYear it)); cbn [negb andb]; [by apply IH|].
  cbv zeta. destruct (String.eqb nt (normalize_title (Name it))).
  - by intros [= <-].
  - apply IH.
Qed.

(** X21: when the library has items within the year window whose
    normalized name is the normalized title, the fuzzy fallback accepts the
    first of them, whatever other items come before it and however well
    they match. *)
Theorem fuzzy_title_match_exact (title : string) (year : option Z)
    (library_items : list emby_item) (item : emby_item) :
  List.find (same_title (normalize_title title) year) library_items = Some item ->
  fuzzy_title_match title year library_items = Some item.
Proof.
  intros H. unfold fuzzy_title_match. by rewrite (fuzzy_loop_exact _ _ _ item).
Qed.

Lemma str_contains_empty s : str_contains "" s = true.
Proof. unfold str_contains. by rewrite PathFacts.contains_eq. Qed.

Lemma word_set_empty : word_set "" = ∅.
Proof. reflexivity. Qed.

(** With an empty normalized title and a best match of nine tenths, only an
    item of the same normalized name changes the state. *)
Lemma fuzzy_loop_empty_kept year lib b :
  fuzzy_loop "" year lib (Some b) (9 # 10)
  = match List.find (same_title "" year) lib with
    | Some item => (Some item, 1%Q)
    | None => (Some b, 9 # 10)
    end.
Proof.
  induction lib as [|it rest IH]; [done|].
  rewrite fuzzy_loop_cons. cbn [List.find]. unfold same_title at 1, in_window.
  destruct (year_too_far year (ProductionYear it)); cbn [negb andb]; [done|].
  cbv zeta. destruct (String.eqb "" (normalize_title (Name it))); [done|].
  rewrite str_contains_empty, word_set_empty.
  rewrite (bool_decide_eq_true_2 (is_Some (Some b))) by by eexists.
  rewrite (bool_decide_eq_true_2 (∅ = ∅)) by done.
  cbn [negb andb orb fst snd]. exact IH.
Qed.

Lemma fuzzy_loop_empty year lib :
  fuzzy_loop "" year lib None 0
  = match List.find (same_title "" year) lib with
    | Some item => (Some item, 1%Q)
    | None =>
        match List.find (in_window year) lib with
        | Some item => (Some item, 9 # 10)
        | None => (None, 0%Q)
        end
    end.
Proof.
  induction lib as [|it rest IH]; [done|].
  rewrite fuzzy_loop_cons. cbn [List.find]. unfold same_title at 1, in_window at 1 2.
  destruct (year_too_far year (ProductionYear it)); cbn [negb andb]; [done|].
  cbv zeta. destruct (String.eqb "" (normalize_title (Name it))); [done|].
  rewrite str_contains_empty, word_set_empty.
  rewrite (bool_decide_eq_false_2 (is_Some None)) by (by intros [? ?]).
  rewrite (bool_decide_eq_true_2 (∅ = ∅)) by done.
  cbn [negb andb orb fst snd]. apply fuzzy_loop_empty_kept.
Qed.

(** X22: a title of which normalizing leaves nothing (a year in brackets,
    punctuation) is contained in every name, so the fuzzy fallback accepts
    an item whenever one is within the year window: the first whose
    normalized name is empty too, and without such an item the first within
    the window, whatever its name. *)
Theorem fuzzy_title_match_empty_title (title : string) (year : option Z)
    (library_items : list emby_item) :
  normalize_title title = "" ->
  fuzzy_title_match title year library_items
  = match List.find (same_title "" year) library_items with
    | Some item => Some item
    | None => List.find (in_window year) library_items
    end.
Proof.
  intros H. unfold fuzzy_title_match. rewrite H, fuzzy_loop_empty.
  destruct (List.find (same_title "" year) library_items); [done|].
  by destruct (List.find (in_window year) library_items).
Qed.

(** The theorem at the library's "Heat", for the title "Heat (1995)" of the
    year 1996. *)
Lemma fuzzy_title_match_similar_witness :
  fuzzy_title_match "Heat (1995)" (Some 1996%Z) [heat_item] = Some heat_item /\
  in_window (Some 1996%Z) heat_item = true /\
  normalize_title "Heat (1995)" = normalize_title (Name heat_item).
Proof.
  assert (fuzzy_title_match "Heat (1995)" (Some 1996%Z) [heat_item] = Some heat_item) as H
    by reflexivity.
  destruct (fuzzy_title_match_similar _ _ _ _ H) as (_ & Hwin & _).
  split; [exact H|]. split; [exact Hwin|reflexivity].
Defined.

(** The theorem at a library where "Heat and Dust", which contains the
    title, comes before "Heat". *)
Lemma fuzzy_title_match_exact_witness :
  let dust := {| Id := "11"; Name := "Heat and Dust"; ProductionYear := Some 1995%Z;
                 ProviderIds := ∅; Path := "" |} in
  List.find (same_title (normalize_title "Heat") (Some 1995%Z)) [dust; heat_item]
  = Some heat_item /\
  fuzzy_title_match "Heat" (Some 1995%Z) [dust] = Some dust /\
  fuzzy_title_match "Heat" (Some 1995%Z) [dust; heat_item] = Some heat_item.
Proof.
  intros dust. split; [reflexivity|]. split; [reflexivity|].
  exact (fuzzy_title_match_exact "Heat" (Some 1995%Z) [dust; heat_item] heat_item eq_refl).
Defined.

(** The theorem at the title "(1999)": the library's "Heat" of 1995 is too
    far from the year 1999, for the year 1996 it is accepted. *)
Lemma fuzzy_title_match_empty_title_witness :
  normalize_title "(1999)" = "" /\
  fuzzy_title_match "(1999)" (Some 1996%Z) [heat_item] = Some heat_item /\
  fuzzy_title_match "(1999)" (Some 1999%Z) [heat_item] = None.
Proof.
  split; [reflexivity|].
  split.
  - exact (fuzzy_title_match_empty_title "(1999)" (Some 1996%Z) [heat_item] eq_refl).
  - exact (fuzzy_title_match_empty_title "(1999)" (Some 1999%Z) [heat_item] eq_refl).
Defined.

(** ** The id of a URL *)

Module UrlFacts.
Import Text.

Lemma startswith_other a p c s : c <> a -> startswith (a :: p) (c :: s) = false.
Proof. intros H. unfold startswith. by rewrite PathFacts.strip_prefix_other. Qed.

Lemma startswith_same a p s : startswith (a :: p) (a :: s) = startswith p s.
Proof. unfold startswith. simpl. by rewrite Ascii.eqb_refl. Qed.

Lemma startswith_end a p : startswith (a :: p) [] = false.
Proof. reflexivity. Qed.

Lemma startswith_app p r : startswith p (p ++ r) = true.
Proof. unfold startswith. by rewrite PathFacts.strip_prefix_same. Qed.

Lemma split_on_go_skip sep p cur r :
  split_on_go sep (length p) cur (p ++ r) = split_on_go sep 0 cur r.
Proof. induction p as [|c p IH]; [done|]. exact IH. Qed.

Lemma split_on_go_cons sep cur c s :
  split_on_go sep 0 cur (c :: s)
  = if startswith sep (c :: s)
    then rev cur :: split_on_go sep (Nat.pred (length sep)) [] s
    else split_on_go sep 0 (c :: cur) s.
Proof. reflexivity. Qed.

(** At an occurrence of the separator the part read so far ends. *)
Lemma split_on_go_sep a sep cur r :
  split_on_go (a :: sep) 0 cur ((a :: sep) ++ r)
  = rev cur :: split_on_go (a :: sep) 0 [] r.
Proof.
  rewrite <- app_comm_cons, split_on_go_cons, app_comm_cons, startswith_app.
  f_equal. apply split_on_go_skip.
Qed.

(** Characters before any occurrence go to the part being read. *)
Lemma split_on_go_free sep pre cur s :
  starts_free sep pre s ->
  split_on_go sep 0 cur (pre ++ s) = split_on_go sep 0 (rev pre ++ cur) s.
Proof.
  revert cur. induction pre as [|c pre IH]; intros cur H; [done|].
  destruct H as [Hc H]. rewrite <- app_comm_cons, split_on_go_cons.
  rewrite <- app_comm_cons in Hc. rewrite Hc, IH by done.
  simpl rev. by rewrite <- app_assoc.
Qed.

(** The first part begins with what was read before. *)
Lemma split_on_go_head sep skip cur s :
  exists x rest, split_on_go sep skip cur s = (rev cur ++ x) :: rest.
Proof.
  revert skip cur. induction s as [|c s IH]; intros skip cur.
  { exists [], []. simpl. by rewrite app_nil_r. }
  destruct skip as [|k]; [|apply IH].
  rewrite split_on_go_cons. destruct (startswith sep (c :: s)).
  - eexists [], _. by rewrite app_nil_r.
  - destruct (IH 0 (c :: cur)) as (x & rest & ->).
    exists (c :: x), rest. simpl rev. by rewrite <- app_assoc.
Qed.

Lemma starts_free_app sep p1 p2 s :
  starts_free sep p1 (p2 ++ s) -> starts_free sep p2 s -> starts_free sep (p1 ++ p2) s.
Proof.
  intros H1 H2. induction p1 as [|c p1 IH]; [done|].
  destruct H1 as [Hc H1]. split; [|by apply IH].
  change ((c :: p1 ++ p2) ++ s) with (((c :: p1) ++ p2) ++ s).
  by rewrite <- app_assoc.
Qed.

Lemma starts_free_char c pre s : c ∉ pre -> starts_free [c] pre s.
Proof.
  induction pre as [|a pre IH]; [done|].
  intros [Ha Hpre]%not_elem_of_cons. split; [|by apply IH].
  rewrite <- app_comm_cons. apply startswith_other. congruence.
Qed.

(** Before a character other than [d] and [=], a text without [=] has no
    occurrence of [id=]. *)
Lemma starts_free_id pre s :
  "="%char ∉ pre ->
  match s with t :: _ => t <> "d"%char /\ t <> "="%char | [] => True end ->
  starts_free (chars "id=") pre s.
Proof.
  intros Hpre Hs. induction pre as [|c pre IH]; [done|].
  apply not_elem_of_cons in Hpre as [Hc Hpre]. split; [|by apply IH].
  change (chars "id=") with ["i"%char; "d"%char; "="%char].
  rewrite <- app_comm_cons.
  destruct (Ascii.eqb_spec c "i") as [->|Hi]; [|by apply startswith_other].
  rewrite startswith_same.
  clear IH. destruct pre as [|c2 pre].
  { rewrite app_nil_l. destruct s as [|t s]; [done|].
    destruct Hs as [Hd _]. by apply startswith_other. }
  rewrite <- app_comm_cons.
  destruct (Ascii.eqb_spec c2 "d") as [->|Hd]; [|by apply startswith_other].
  rewrite startswith_same.
  destruct pre as [|c3 pre].
  { rewrite app_nil_l. destruct s as [|t s]; [done|].
    destruct Hs as [_ He]. by apply startswith_other. }
  rewrite <- app_comm_cons. apply startswith_other.
  intros ->. apply Hpre. right. by left.
Qed.

Lemma contains_char_free c l : c ∉ l -> contains [c] l = false.
Proof.
  induction l as [|a l IH]; [done|].
  intros [Ha Hl]%not_elem_of_cons.
  rewrite PathFacts.contains_eq, IH by done.
  rewrite startswith_other by congruence. done.
Qed.

End UrlFacts.

(** X23: [extract_emby_id_from_url] gives back the id of a URL that has it
    as its first parameter [id=...]: for a URL made of a text without ["="],
    then ["id="], then an id without ["="] and ["&"], and then nothing or
    ["&"] and any further text, the answer is the id.  Without ["id="] in
    the URL the answer is [None]. *)
Theorem extract_emby_id_from_url_query (url : string) :
  (forall pre id rest,
     Text.chars url = pre ++ Text.chars "id=" ++ id ++ rest ->
     "="%char ∉ pre -> "="%char ∉ id -> "&"%char ∉ id ->
     rest = [] \/ (exists rest', rest = "&"%char :: rest') ->
     extract_emby_id_from_url url = Some (string_of_list_ascii id)) /\
  (str_contains "id=" url = false -> extract_emby_id_from_url url = None).
Proof.
  unfold extract_emby_id_from_url. split.
  2:{ intros ->. by rewrite orb_true_r. }
  intros pre id rest Hurl Hpre Hid Hamp Hrest.
  assert (truthy url = true) as ->.
  { destruct url; [|done]. simpl in Hurl. symmetry in Hurl.
    apply app_eq_nil in Hurl as [_ Hurl]. done. }
  assert (str_contains "id=" url = true) as ->.
  { unfold str_contains. rewrite Hurl. apply PathFacts.contains_app. }
  simpl. unfold split_on. rewrite Hurl.
  rewrite UrlFacts.split_on_go_free by (by apply UrlFacts.starts_free_id).
  change (Text.chars "id=") with ["i"%char; "d"%char; "="%char].
  rewrite UrlFacts.split_on_go_sep.
  destruct Hrest as [->|[rest' ->]].
  - rewrite app_nil_r.
    rewrite <- (app_nil_r id) at 1.
    rewrite UrlFacts.split_on_go_free by (by apply UrlFacts.starts_free_id).
    simpl split_on_go. rewrite app_nil_r, rev_involutive.
    change (Text.chars "&") with ["&"%char].
    by rewrite UrlFacts.contains_char_free.
  - change (id ++ "&"%char :: rest') with (id ++ ["&"%char] ++ rest').
    rewrite app_assoc.
    rewrite UrlFacts.split_on_go_free.
    2:{ apply UrlFacts.starts_free_app.
        - apply UrlFacts.starts_free_id; [done|]. simpl. split; discriminate.
        - split; [|done]. simpl app. by apply UrlFacts.startswith_other. }
    destruct (UrlFacts.split_on_go_head ["i"%char; "d"%char; "="%char] 0
                (rev (id ++ ["&"%char]) ++ []) rest') as (x & parts & ->).
    rewrite app_nil_r, rev_involutive, <- app_assoc.
    change (Text.chars "&") with ["&"%char].
    rewrite PathFacts.contains_app.
    rewrite UrlFacts.split_on_go_free by (by apply UrlFacts.starts_free_char).
    rewrite UrlFacts.split_on_go_sep. simpl hd.
    by rewrite app_nil_r, rev_involutive.
Qed.

(** The theorem at the address of an item's page. *)
Lemma extract_emby_id_from_url_query_witness :
  let url := "http://emby:8096/web/index.html#!/item?id=10&serverId=abc" in
  Text.chars url = Text.chars "http://emby:8096/web/index.html#!/item?" ++ Text.chars "id="
                   ++ Text.chars "10" ++ Text.chars "&serverId=abc" /\
  extract_emby_id_from_url url = Some "10".
Proof.
  intros url. split; [reflexivity|].
  assert (forall c (l : list ascii), forallb (fun a => negb (Ascii.eqb a c)) l = true -> c ∉ l)
    as Hfree.
  { intros c l H Hin. apply list_elem_of_In in Hin.
    apply (proj1 (forallb_forall _ _) H) in Hin. by rewrite Ascii.eqb_refl in Hin. }
  apply (proj1 (extract_emby_id_from_url_query url)
           (Text.chars "http://emby:8096/web/index.html#!/item?") (Text.chars "10")
           (Text.chars "&serverId=abc")).
  - reflexivity.
  - by apply Hfree.
  - by apply Hfree.
  - by apply Hfree.
  - right. by eexists.
Defined.

(** ** What a recheck remembers *)

Section RecheckStore.

Context (E : env).

Lemma same_stores_trans w1 w2 w3 : same_stores w1 w2 -> same_stores w2 w3 -> same_stores w1 w3.
Proof. unfold same_stores. intros (-> & -> & ->) (-> & -> & ->). done. Qed.

Lemma http_stores r w : same_stores w (http E r w).2.
Proof. done. Qed.

Lemma find_collection_by_name_stores collection_name w :
  same_stores w (find_collection_by_name E collection_name w).2.
Proof. by rewrite find_collection_by_name_run. Qed.

Lemma add_movie_to_emby_collection_stores movie_id collection_id w :
  same_stores w (add_movie_to_emby_collection E movie_id collection_id w).2.
Proof.
  unfold add_movie_to_emby_collection, bind, ret, http. simpl.
  repeat match goal with
         | |- context [match ?x with _ => _ end] => destruct x; simpl
         end; done.
Qed.

Lemma add_to_collections_stores emby_id collections n w :
  same_stores w (add_to_collections E emby_id collections n w).2.
Proof.
  revert n w. induction collections as [|c rest IH]; intros n w; [done|].
  cbn [add_to_collections]. unfold bind at 1.
  pose proof (find_collection_by_name_stores (name c) w) as H1.
  destruct (find_collection_by_name E (name c) w) as [collection_id w1].
  unfold bind at 1.
  match goal with
  | |- context [let '(a, w') := ?m w1 in _] =>
      assert (same_stores w1 (m w1).2) as H2
        by (destruct (truthy_opt collection_id);
            [apply add_movie_to_emby_collection_stores|done]);
      destruct (m w1) as [ok w2]
  end.
  eapply same_stores_trans; [exact H1|]. eapply same_stores_trans; [exact H2|]. apply IH.
Qed.

(** X26: [recheck_missing_item] never writes the mapping store for a record
    that the module wrote, with or without a manual target id and whatever
    the server answers: the record has no ['trakt_ids'], so a manual id that
    the server confirms is used for the collections and then forgotten.  The
    ignored registry is left as it is too. *)
Theorem recheck_missing_item_stores_no_mapping (ops : list registry_op) (w0 : world)
    (item_index : Z) (manual_emby_id : option string) :
  registries_written_here w0 ->
  let w := run_ops E ops w0 in
  let out := recheck_missing_item E item_index manual_emby_id w in
  _emby_id_mapping out.2 = _emby_id_mapping w /\
  _ignored_items out.2 = _ignored_items w.
Proof.
  intros Hw0 w out.
  pose proof (run_ops_written E ops w0 Hw0) as Hw. fold w in Hw. clearbody w.
  apply Forall_app in Hw as [Hm _].
  set (P := fun w' : world =>
              _emby_id_mapping w' = _emby_id_mapping w /\
              _ignored_items w' = _ignored_items w).
  assert (forall w1, same_stores w w1 -> P w1) as Hsame.
  { intros w1 (H1 & _ & H3). by split. }
  assert (forall w1 f, P w1 -> P (set_missing f w1)) as Hset by (intros w1 f H; exact H).
  change (P out.2). subst out. unfold recheck_missing_item.
  unfold bind at 1. unfold gets at 1. cbn beta iota.
  destruct (if valid_index _ _ then _ else _) as [item|] eqn:Hr; [|by apply Hsame].
  apply indexed in Hr. destruct (Forall_lookup_1 _ _ _ _ Hm Hr) as [Hids _].
  rewrite Hids. cbv zeta.
  destruct (truthy_opt manual_emby_id).
  - unfold bind at 1.
    pose proof (http_stores (GetItem (default "" manual_emby_id)) w) as H1.
    destruct (http E (GetItem (default "" manual_emby_id)) w) as [[e|code its j] w1];
      [by apply Hsame|].
    destruct (Z.eqb code 200); [|by apply Hsame].
    change (has_value ∅ "trakt") with false. cbn iota.
    unfold bind at 1. unfold ret at 1. cbn beta iota.
    unfold bind at 1.
    match goal with
    | |- context [add_to_collections E ?i ?cs 0 w1] =>
        pose proof (add_to_collections_stores i cs 0 w1) as H2;
        destruct (add_to_collections E i cs 0 w1) as [n w2]
    end.
    assert (P w2) as Hw2 by (apply Hsame; by eapply same_stores_trans).
    destruct (Nat.ltb 0 n); [|exact Hw2].
    unfold bind, modify, ret. cbn beta iota. by apply Hset.
  - unfold search_in_emby, search_movie_in_emby, search_tv_show_in_emby.
    rewrite bool_decide_eq_true_2 by done.
    destruct (String.eqb (item_type item) "movie");
      unfold bind, ret, now, modify; cbn beta iota; apply Hset; by apply Hsame.
Qed.

End RecheckStore.

(** The theorem at a server that knows the item and the collection: the
    recheck with the manual id succeeds, the record leaves the unresolved
    registry, and the mapping store stays empty. *)
Lemma recheck_missing_item_stores_no_mapping_witness :
  let boxset := {| Id := "900"; Name := "Crime"; ProductionYear := None;
                   ProviderIds := ∅; Path := "" |} in
  let E := {| EMBY_MOVIES_LIBRARY_ID := "1"; EMBY_TV_LIBRARY_ID := "2";
              emby := fun _ r => match r with
                                 | GetBoxSets => Response 200 [boxset] None
                                 | GetItem _ => Response 200 [] None
                                 | _ => Response 204 [] None
                                 end;
              clock := fun n => str_of_Z (Z.of_nat n) |} in
  let heat := {| t_title := Some "Heat"; t_year := Some 1995%Z;
                 t_ids := {["trakt" := "352"]} |} in
  let ops := [AddUnresolved heat "movie" "Crime" (Some "1")
                "No matching IDs found in Emby library"] in
  let w := run_ops E ops empty_world in
  let out := recheck_missing_item E 0 (Some "10") w in
  length (_missing_items w) = 1 /\
  out.1 = (true, "Added Heat to 1 collections") /\
  _missing_items out.2 = [] /\
  _emby_id_mapping out.2 = ∅.
Proof.
  intros boxset E heat ops w out.
  split; [reflexivity|]. split; [reflexivity|]. split; [reflexivity|].
  assert (registries_written_here empty_world) as H0 by constructor.
  exact (proj1 (recheck_missing_item_stores_no_mapping E ops empty_world 0 (Some "10") H0)).
Defined.
